(** * validate_csv_big.py: the streaming CSV validator

    A shallow embedding of [src/csv_validate_for_v1/validate_csv_big.py].

    - A Python [str] is represented by its UTF-8 encoding, a [string] of
      bytes; a row is the [list] of fields that [csv.reader] yields.
    - Python integers are [Z].
    - A [dict] is an association list in insertion order (the report of
      [validate_csv] iterates the dictionaries in that order).
    - The built-ins and library calls the script relies on ([int], [str.strip],
      [repr], the UTF-8 decoder, [csv.reader], the lazy read of the first
      record of a file) are the fields of the class [Host]; the theorems
      hold for every host.  [Reference] gives one host on which the
      definitions evaluate.
    - Exceptions are explicit: [result] for pure code, and the monad [M], a
      state monad whose state survives a raise, for [validate_csv].
    - An output file buffers what it is given: a row reaches the file when
      the buffer flushes, during a later [writerow] or during [close()], and
      that is where a full device raises [OSError]. *)

From Stdlib Require Import String Ascii List ZArith Lia Bool DecimalString.
From Stdlib Require Import Sorted Permutation.
Import ListNotations.
Open Scope string_scope.
Open Scope Z_scope.

(** ** Data *)

Definition str := string.
Definition bytes := list Byte.byte.
Definition row := list str.

(** The exception classes that can reach the script. All of them derive from
    [Exception], so [except Exception] catches each one. *)
Inductive exn : Type :=
| ValueError
| UnicodeDecodeError
| OSError.

Inductive result (A : Type) : Type :=
| Ret (a : A)
| Raise (e : exn).
Arguments Ret {A} a.
Arguments Raise {A} e.

Definition rbind {A B} (r : result A) (k : A -> result B) : result B :=
  match r with
  | Ret a => k a
  | Raise e => Raise e
  end.

Definition rmap {A B} (f : A -> B) (r : result A) : result B :=
  rbind r (fun a => Ret (f a)).

(** [str(n)] and [f"{n}"] for an integer. *)
Definition dec (z : Z) : str := NilZero.string_of_int (Z.to_int z).

Definition len {A} (l : list A) : Z := Z.of_nat (length l).

(** ** The host: built-ins and library calls *)

(** What the strict UTF-8 decoder makes of a byte stream: the text, or the
    [start] and [reason] of the [UnicodeDecodeError] it raises. *)
Inductive decoded : Type :=
| Text (t : str)
| DecodeError (start : Z) (reason : str).

Class Host : Type := {
  (** [int(s)] for a [str]: the value, or the exception it raises. *)
  py_int : str -> result Z;
  (** [s.strip()]. *)
  py_strip : str -> str;
  (** [repr(s)], which [{s!r}] inserts in an f-string. *)
  py_repr : str -> str;
  (** The codec [utf-8] with [errors='strict'] over a whole byte stream. *)
  utf8_decode : bytes -> decoded;
  (** The records [csv.reader] yields over a text opened with [newline=''],
      in order. *)
  csv_reader : str -> list row;
  (** [next(csv.reader(f), None)] for a file [f] just opened with
      [encoding='utf-8-sig'] and [newline='']: the first record, read
      lazily.  The file is decoded chunk by chunk and only as far as the
      record needs, so bytes behind the chunks that were read are never
      decoded; [None] when the file holds no record. *)
  first_record : bytes -> result (option row)
}.

(** [repr] of a list of strings: [repr] of the items, comma separated, in
    brackets. *)
Definition repr_list `{Host} (l : list str) : str :=
  "[" ++ String.concat ", " (map py_repr l) ++ "]".

(** ** Dictionaries *)

Definition dict (V : Type) := list (str * V).

Fixpoint dict_get {V} (d : dict V) (k : str) : option V :=
  match d with
  | [] => None
  | (k', v) :: d' => if String.eqb k' k then Some v else dict_get d' k
  end.

(** [d.get(k, dflt)]. *)
Definition dict_get_or {V} (d : dict V) (k : str) (dflt : V) : V :=
  match dict_get d k with
  | Some v => v
  | None => dflt
  end.

(** [d[k] = v]: an existing key keeps its place, a new one goes last. *)
Fixpoint dict_set {V} (d : dict V) (k : str) (v : V) : dict V :=
  match d with
  | [] => [(k, v)]
  | (k', v') :: d' =>
      if String.eqb k' k then (k', v) :: d' else (k', v') :: dict_set d' k v
  end.

(** [k in d]. *)
Definition dict_mem {V} (d : dict V) (k : str) : bool :=
  match dict_get d k with
  | Some _ => true
  | None => false
  end.

(** ** validate_row *)

Section ValidateRow.
Context `{Host}.

(** [idx_raw, name, freq_raw = row]: raises [ValueError] unless the row has
    exactly three items. *)
Definition unpack3 (r : row) : result (str * str * str) :=
  match r with
  | [a; b; c] => Ret (a, b, c)
  | _ => Raise ValueError
  end.

Definition msg_fields_count (r : row) (line_no : Z) : str :=
  "Строка " ++ dec line_no ++ ": ожидается 3 поля, получено "
    ++ dec (len r) ++ " — " ++ repr_list r.

Definition msg_idx_not_int (idx_raw : str) (line_no : Z) : str :=
  "Строка " ++ dec line_no ++ ": 'Unnamed: 0' не int — " ++ py_repr idx_raw.

Definition msg_name_empty (line_no : Z) : str :=
  "Строка " ++ dec line_no ++ ": 'name' пустая".

Definition msg_freq_negative (freq_raw : str) (line_no : Z) : str :=
  "Строка " ++ dec line_no ++ ": 'frequency' < 0 — " ++ py_repr freq_raw.

Definition msg_freq_not_int (freq_raw : str) (line_no : Z) : str :=
  "Строка " ++ dec line_no ++ ": 'frequency' не int — " ++ py_repr freq_raw.

(** The pair [(error_code, message)], [(None, None)] for a valid row.  A
    field that [csv.reader] yields is a [str], never [None], so the test
    [name is None] is false and only [name.strip() == ''] decides. *)
Definition validate_row (r : row) (line_no : Z)
  : result (option str * option str) :=
  if negb (len r =? 3) then
    Ret (Some "fields_count", Some (msg_fields_count r line_no))
  else
    rbind (unpack3 r) (fun '(idx_raw, name, freq_raw) =>
      match py_int idx_raw with
      | Raise _ =>
          Ret (Some "idx_not_int", Some (msg_idx_not_int idx_raw line_no))
      | Ret _ =>
          if String.eqb (py_strip name) EmptyString then
            Ret (Some "name_empty", Some (msg_name_empty line_no))
          else
            match py_int freq_raw with
            | Ret fr =>
                if fr <? 0 then
                  Ret (Some "freq_negative",
                       Some (msg_freq_negative freq_raw line_no))
                else Ret (None, None)
            | Raise _ =>
                Ret (Some "freq_not_int",
                     Some (msg_freq_not_int freq_raw line_no))
            end
      end).

End ValidateRow.

(** ** The Record Validator as the specification words it

    Four rules, tried in order; the first one that fails names the
    classification. *)

Inductive ErrorKind : Type :=
| FieldsCount
| IdxNotInt
| NameEmpty
| FreqNotInt
| FreqNegative.

Definition kind_code (k : ErrorKind) : str :=
  match k with
  | FieldsCount => "fields_count"
  | IdxNotInt => "idx_not_int"
  | NameEmpty => "name_empty"
  | FreqNotInt => "freq_not_int"
  | FreqNegative => "freq_negative"
  end.

Section RecordValidatorSpec.
Context `{Host}.

Definition field (i : nat) (r : row) : str := nth i r EmptyString.

Definition parses (s : str) : bool :=
  match py_int s with
  | Ret _ => true
  | Raise _ => false
  end.

(** A rule answers [None] when the record passes it. *)
Definition rule := row -> option ErrorKind.

Definition rule_count : rule := fun r =>
  if (length r =? 3)%nat then None else Some FieldsCount.

Definition rule_index : rule := fun r =>
  if parses (field 0 r) then None else Some IdxNotInt.

Definition rule_name : rule := fun r =>
  if String.eqb (py_strip (field 1 r)) EmptyString then Some NameEmpty
  else None.

Definition rule_frequency : rule := fun r =>
  match py_int (field 2 r) with
  | Raise _ => Some FreqNotInt
  | Ret fr => if fr <? 0 then Some FreqNegative else None
  end.

Definition four_rules : list rule :=
  [rule_count; rule_index; rule_name; rule_frequency].

Fixpoint first_failure (rules : list rule) (r : row) : option ErrorKind :=
  match rules with
  | [] => None
  | check :: rest =>
      match check r with
      | Some k => Some k
      | None => first_failure rest r
      end
  end.

Definition classify (r : row) : option ErrorKind :=
  first_failure four_rules r.

End RecordValidatorSpec.


(** ** Files, sinks and the console *)

(** The files the run can see: what a path holds when it is read; how many
    rows the file at a path accepts when it is written ([None]: no limit)
    before a write to it raises [OSError]; and how many rows the buffer of a
    file object opened on the path holds before it flushes. *)
Record world : Type := {
  file_bytes : str -> bytes;
  sink_room : str -> option nat;
  sink_buffer : str -> nat
}.

(** The parsed command line. *)
Record args : Type := {
  big_csv : str;
  sample_csv : option str;
  out_clean : option str;
  errors_out : option str;
  sample_per_type : Z;
  max_print_errors : Z;
  progress_every : Z
}.

(** Truth value of an [Optional[str]]: [None] and the empty string are
    false. *)
Definition truthy (o : option str) : bool :=
  match o with
  | None => false
  | Some s => negb (String.eqb s EmptyString)
  end.

Definition text_of (o : option str) : str :=
  match o with
  | Some s => s
  | None => EmptyString
  end.

(** An output file object with its [csv.writer]: the rows written so far,
    how many of them are still in the buffer, the room left in the file, the
    rows the buffer holds, whether it compresses, and the number of
    [close()] calls it has received.  The buffers of a file object hold
    bytes; a number of rows stands for them. *)
Record handle : Type := {
  h_rows : list row;
  h_pending : nat;
  h_room : option nat;
  h_buffer : nat;
  h_gzip : bool;
  h_closes : nat
}.

(** A file object whose rows go to the file one by one. *)
Definition handle_open (room : option nat) (gz : bool) : handle :=
  {| h_rows := []; h_pending := 0; h_room := room; h_buffer := 0;
     h_gzip := gz; h_closes := 0 |}.

(** The same with a buffer of [n] rows. *)
Definition buffered (n : nat) (h : handle) : handle :=
  {| h_rows := h_rows h; h_pending := h_pending h; h_room := h_room h;
     h_buffer := n; h_gzip := h_gzip h; h_closes := h_closes h |}.

(** The file takes [n] rows: the room that is left, or [OSError] when they
    do not fit. *)
Definition take (room : option nat) (n : nat) : result (option nat) :=
  match room with
  | None => Ret None
  | Some k => if (n <=? k)%nat then Ret (Some (k - n)%nat) else Raise OSError
  end.

(** [writer.writerow(cells)]: the row joins the buffer; when the buffer
    cannot hold it, the buffer is flushed to the file with it.  A closed
    file raises [ValueError]. *)
Definition handle_write (h : handle) (cells : row) : result handle :=
  match h_closes h with
  | S _ => Raise ValueError
  | O =>
      if (S (h_pending h) <=? h_buffer h)%nat then
        Ret {| h_rows := h_rows h ++ [cells]; h_pending := S (h_pending h);
               h_room := h_room h; h_buffer := h_buffer h;
               h_gzip := h_gzip h; h_closes := 0 |}
      else
        rbind (take (h_room h) (S (h_pending h))) (fun room =>
          Ret {| h_rows := h_rows h ++ [cells]; h_pending := 0;
                 h_room := room; h_buffer := h_buffer h;
                 h_gzip := h_gzip h; h_closes := 0 |})
  end.

(** [fh.close()]: the buffer is flushed to the file, and the file object is
    closed whether the flush raised or not.  On a closed file [close()] does
    nothing. *)
Definition handle_close (h : handle) : result unit * handle :=
  let closed pending room :=
    {| h_rows := h_rows h; h_pending := pending; h_room := room;
       h_buffer := h_buffer h; h_gzip := h_gzip h;
       h_closes := S (h_closes h) |} in
  match h_closes h with
  | S _ => (Ret tt, closed (h_pending h) (h_room h))
  | O =>
      match take (h_room h) (h_pending h) with
      | Ret room => (Ret tt, closed 0%nat room)
      | Raise e => (Raise e, closed (h_pending h) (h_room h))
      end
  end.

(** What [print] sends to the console, one constructor per [print] call of
    the script. *)
Inductive event : Type :=
| EncodingBad (problem : str)
| EncodingHint
| EncodingOk
| ExpectedHeader (h : row)
| HeaderMismatch
| HeaderInFile (h : option row)
| HeaderExpected (h : row)
| HeaderOk
| RowError (msg : option str)
| Progress (n : Z)
| Rule
| ReportTotal (n : Z)
| ReportValid (n : Z)
| ReportInvalid (n : Z)
| ReportClean (path : str)
| ReportErrors (path : str)
| SummaryTitle
| SummaryCount (code : str) (cnt : Z)
| SamplesTitle (k : Z)
| SampleKind (code : str)
| Sample (msg : option str)
| NoErrors.

(** The variables of [validate_csv] and the console.  [clean_fh] and
    [err_fh] hold the file object each sink was opened with. *)
Record state : Type := {
  total : Z;
  valid : Z;
  err_counts : dict Z;
  err_samples : dict (list (option str));
  printed : Z;
  clean_fh : option handle;
  err_fh : option handle;
  console : list event
}.

(** The state before [validate_csv] runs. *)
Definition boot : state :=
  {| total := 0; valid := 0; err_counts := []; err_samples := [];
     printed := 0; clean_fh := None; err_fh := None; console := [] |}.

Definition set_total (v : Z) (s : state) : state :=
  {| total := v; valid := valid s; err_counts := err_counts s;
     err_samples := err_samples s; printed := printed s;
     clean_fh := clean_fh s; err_fh := err_fh s; console := console s |}.

Definition set_valid (v : Z) (s : state) : state :=
  {| total := total s; valid := v; err_counts := err_counts s;
     err_samples := err_samples s; printed := printed s;
     clean_fh := clean_fh s; err_fh := err_fh s; console := console s |}.

Definition set_err_counts (v : dict Z) (s : state) : state :=
  {| total := total s; valid := valid s; err_counts := v;
     err_samples := err_samples s; printed := printed s;
     clean_fh := clean_fh s; err_fh := err_fh s; console := console s |}.

Definition set_err_samples (v : dict (list (option str))) (s : state) : state :=
  {| total := total s; valid := valid s; err_counts := err_counts s;
     err_samples := v; printed := printed s;
     clean_fh := clean_fh s; err_fh := err_fh s; console := console s |}.

Definition set_printed (v : Z) (s : state) : state :=
  {| total := total s; valid := valid s; err_counts := err_counts s;
     err_samples := err_samples s; printed := v;
     clean_fh := clean_fh s; err_fh := err_fh s; console := console s |}.

Definition set_clean_fh (v : option handle) (s : state) : state :=
  {| total := total s; valid := valid s; err_counts := err_counts s;
     err_samples := err_samples s; printed := printed s;
     clean_fh := v; err_fh := err_fh s; console := console s |}.

Definition set_err_fh (v : option handle) (s : state) : state :=
  {| total := total s; valid := valid s; err_counts := err_counts s;
     err_samples := err_samples s; printed := printed s;
     clean_fh := clean_fh s; err_fh := v; console := console s |}.

Definition set_console (v : list event) (s : state) : state :=
  {| total := total s; valid := valid s; err_counts := err_counts s;
     err_samples := err_samples s; printed := printed s;
     clean_fh := clean_fh s; err_fh := err_fh s; console := v |}.

(** ** The monad of [validate_csv]: state that survives an exception *)

Definition M (A : Type) : Type := state -> result A * state.

Definition ret {A} (a : A) : M A := fun s => (Ret a, s).

Definition bind {A B} (m : M A) (k : A -> M B) : M B := fun s =>
  match m s with
  | (Ret a, s') => k a s'
  | (Raise e, s') => (Raise e, s')
  end.

Definition lift {A} (r : result A) : M A := fun s => (r, s).

Definition gets {A} (f : state -> A) : M A := fun s => (Ret (f s), s).

Definition modify (f : state -> state) : M unit := fun s => (Ret tt, f s).

Definition when (b : bool) (m : M unit) : M unit :=
  if b then m else ret tt.

Fixpoint for_each {A} (l : list A) (f : A -> M unit) : M unit :=
  match l with
  | [] => ret tt
  | x :: l' => bind (f x) (fun _ => for_each l' f)
  end.

Declare Scope m_scope.
Delimit Scope m_scope with M.
Notation "x <- c ;; k" := (bind c (fun x => k))
  (at level 61, c at next level, right associativity) : m_scope.
Notation "c ;; k" := (bind c (fun _ => k))
  (at level 61, right associativity) : m_scope.
Open Scope m_scope.

Definition print (e : event) : M unit :=
  modify (fun s => set_console (console s ++ [e]) s).

(** ** The script *)

Definition EXPECTED_HEADER : row := ["Unnamed: 0"; "name"; "frequency"].

Definition BOM : bytes := [Byte.xef; Byte.xbb; Byte.xbf].

(** The codec [utf-8-sig] drops one byte-order mark at the start of the
    stream, then decodes as [utf-8]. *)
Definition strip_bom (content : bytes) : bytes :=
  match content with
  | b0 :: b1 :: b2 :: rest =>
      if Byte.eqb b0 Byte.xef && Byte.eqb b1 Byte.xbb && Byte.eqb b2 Byte.xbf
      then rest else content
  | _ => content
  end.

Fixpoint row_eqb (a b : row) : bool :=
  match a, b with
  | [], [] => true
  | x :: a', y :: b' => String.eqb x y && row_eqb a' b'
  | _, _ => false
  end.

(** [header != expected_header], where [header] may be [None]. *)
Definition header_differs (header : option row) (expected : row) : bool :=
  match header with
  | None => true
  | Some h => negb (row_eqb h expected)
  end.

Definition ends_with (suffix s : str) : bool :=
  let n := String.length s in
  let k := String.length suffix in
  (k <=? n)%nat && String.eqb (substring (n - k) k s) suffix.

(** [row[i] if len(row) > i else ''] *)
Definition cell (i : nat) (r : row) : str := nth i r EmptyString.

(** [csv.writer] writes [None] as the empty field. *)
Definition csv_cell (o : option str) : str :=
  match o with
  | Some s => s
  | None => EmptyString
  end.

(** Stable sort of [err_counts.items()] by [-cnt]. *)
Fixpoint insert_by_count (x : str * Z) (l : list (str * Z)) : list (str * Z) :=
  match l with
  | [] => [x]
  | y :: l' =>
      if snd y <=? snd x then x :: y :: l' else y :: insert_by_count x l'
  end.

Definition sorted_by_count (d : dict Z) : list (str * Z) :=
  fold_right insert_by_count [] d.

Section Script.
Context `{Host}.

(** The text of a file opened with [encoding='utf-8-sig'].  The file is
    decoded as a whole here; Python decodes it chunk by chunk as it is read. *)
Definition open_text_utf8_strict (content : bytes) : result str :=
  match utf8_decode (strip_bom content) with
  | Text t => Ret t
  | DecodeError _ _ => Raise UnicodeDecodeError
  end.

Definition check_utf8_streaming (content : bytes) : option str :=
  match utf8_decode content with
  | Text _ => None
  | DecodeError start reason =>
      Some ("UnicodeDecodeError @ byte " ++ dec start ++ ": " ++ reason)
  end.

(** [next(r, []) or []] on the file just opened: one record is read, and
    no more of the file than that takes. *)
Definition read_header (content : bytes) : result row :=
  rbind (first_record content) (fun first =>
    let hdr := match first with
               | Some h => h
               | None => []
               end in
    Ret (match hdr with
         | [] => []
         | _ :: _ => hdr
         end)).

(** [if clean_wr: clean_wr.writerow(cells)] *)
Definition write_clean (cells : row) : M unit := fun s =>
  match clean_fh s with
  | None => (Ret tt, s)
  | Some h =>
      match handle_write h cells with
      | Ret h' => (Ret tt, set_clean_fh (Some h') s)
      | Raise e => (Raise e, s)
      end
  end.

(** [if err_wr: err_wr.writerow(cells)] *)
Definition write_errors (cells : row) : M unit := fun s =>
  match err_fh s with
  | None => (Ret tt, s)
  | Some h =>
      match handle_write h cells with
      | Ret h' => (Ret tt, set_err_fh (Some h') s)
      | Raise e => (Raise e, s)
      end
  end.

(** Lines 129-134: the clean copy is opened and its header row written. *)
Definition open_clean (a : args) (w : world) (expected_header : row) : M unit :=
  modify (set_clean_fh None) ;;
  when (truthy (out_clean a))
    (modify (set_clean_fh
               (Some (buffered (sink_buffer w (text_of (out_clean a)))
                        (handle_open (sink_room w (text_of (out_clean a)))
                           false)))) ;;
     write_clean expected_header).

(** [open_errors_writer]: gzip when the name ends in [.gz], then the header
    row. *)
Definition open_errors_writer (w : world) (path : str) : M unit :=
  modify (set_err_fh
            (Some (buffered (sink_buffer w path)
                     (handle_open (sink_room w path)
                        (ends_with ".gz" path))))) ;;
  write_errors
    ["line_no"; "error_code"; "message"; "col0"; "col1"; "col2"; "raw_len"].

Definition record_error (a : args) (code : str) (msg : option str)
  (s : state) : state :=
  let s1 :=
    set_err_counts
      (dict_set (err_counts s) code (dict_get_or (err_counts s) code 0 + 1)) s in
  let s2 :=
    if dict_mem (err_samples s1) code then s1
    else set_err_samples (dict_set (err_samples s1) code []) s1 in
  if len (dict_get_or (err_samples s2) code []) <? sample_per_type a then
    set_err_samples
      (dict_set (err_samples s2) code
         (dict_get_or (err_samples s2) code [] ++ [msg])%list) s2
  else s2.

(** Lines 152-154: the record is valid. *)
Definition on_valid (r : row) : M unit :=
  modify (fun s => set_valid (valid s + 1) s) ;;
  write_clean r.

(** Lines 157-175: the record is invalid. *)
Definition on_invalid (a : args) (line_no : Z) (r : row) (code : str)
  (msg : option str) : M unit :=
  modify (record_error a code msg) ;;
  write_errors
    [dec line_no; code; csv_cell msg; cell 0 r; cell 1 r; cell 2 r;
     dec (len r)] ;;
  printed_now <- gets printed ;;
  when (printed_now <? max_print_errors a)
    (print (RowError msg) ;;
     modify (fun s => set_printed (printed s + 1) s)).

(** Lines 177-178. *)
Definition heartbeat (a : args) : M unit :=
  total_now <- gets total ;;
  when (negb (progress_every a =? 0)
        && (total_now mod progress_every a =? 0))
    (print (Progress total_now)).

(** One turn of the loop of lines 147-178. *)
Definition body (a : args) (line_no : Z) (r : row) : M unit :=
  modify (fun s => set_total (total s + 1) s) ;;
  res <- lift (validate_row r line_no) ;;
  match res with
  | (None, _) => on_valid r
  | (Some code, msg) => on_invalid a line_no r code msg
  end ;;
  heartbeat a.

(** [for line_no, row in enumerate(r, start=line_no)] *)
Fixpoint stream (a : args) (line_no : Z) (rows : list row) : M unit :=
  match rows with
  | [] => ret tt
  | r :: rest => body a line_no r ;; stream a (line_no + 1) rest
  end.

(** [if clean_fh: clean_fh.close()] *)
Definition close_clean : M unit := fun s =>
  match clean_fh s with
  | None => (Ret tt, s)
  | Some h =>
      (fst (handle_close h), set_clean_fh (Some (snd (handle_close h))) s)
  end.

(** [if err_fh: err_fh.close()] *)
Definition close_errors : M unit := fun s =>
  match err_fh s with
  | None => (Ret tt, s)
  | Some h =>
      (fst (handle_close h), set_err_fh (Some (snd (handle_close h))) s)
  end.

(** Lines 180-183. *)
Definition close_sinks : M unit :=
  close_clean ;;
  close_errors.

(** Lines 185-207. *)
Definition report (a : args) : M unit :=
  print Rule ;;
  s <- gets (fun s => s) ;;
  print (ReportTotal (total s)) ;;
  print (ReportValid (valid s)) ;;
  print (ReportInvalid (total s - valid s)) ;;
  when (truthy (out_clean a)) (print (ReportClean (text_of (out_clean a)))) ;;
  when (truthy (errors_out a)) (print (ReportErrors (text_of (errors_out a)))) ;;
  match err_counts s with
  | _ :: _ =>
      print SummaryTitle ;;
      for_each (sorted_by_count (err_counts s))
        (fun '(code, cnt) => print (SummaryCount code cnt)) ;;
      print (SamplesTitle (sample_per_type a)) ;;
      for_each (err_samples s)
        (fun '(code, samples) =>
           print (SampleKind code) ;;
           for_each samples (fun m => print (Sample m)))
  | [] => print NoErrors
  end.

(** Lines 102-108: the header of the sample file when one is given and has
    a header, else [EXPECTED_HEADER]. *)
Definition expected_header_of (a : args) (w : world) : result row :=
  if truthy (sample_csv a) then
    rbind (read_header (file_bytes w (text_of (sample_csv a)))) (fun hdr =>
      Ret (match hdr with
           | [] => EXPECTED_HEADER
           | _ :: _ => hdr
           end))
  else Ret EXPECTED_HEADER.

(** Line 113: [next(r, None)] over the subject file, which line 95 has
    decoded to its end before. *)
Definition observed_header (a : args) (w : world) : result (option row) :=
  rmap (fun f => hd_error (csv_reader f))
    (open_text_utf8_strict (file_bytes w (big_csv a))).

(** Lines 144-146: the records after the header. *)
Definition data_rows (a : args) (w : world) : result (list row) :=
  rmap (fun f => tl (csv_reader f))
    (open_text_utf8_strict (file_bytes w (big_csv a))).

(** Lines 137-140. *)
Definition open_errors (a : args) (w : world) : M unit :=
  modify (set_err_fh None) ;;
  when (truthy (errors_out a)) (open_errors_writer w (text_of (errors_out a))).

(** Lines 122-142: the counters start at zero and the sinks are opened. *)
Definition init_pass (a : args) (w : world) (expected_header : row) : M unit :=
  modify (set_total 0) ;;
  modify (set_valid 0) ;;
  modify (set_err_counts []) ;;
  modify (set_err_samples []) ;;
  open_clean a w expected_header ;;
  open_errors a w ;;
  modify (set_printed 0).

(** Lines 122-183, reached once encoding and header are accepted. *)
Definition pass (a : args) (w : world) (expected_header : row) : M unit :=
  init_pass a w expected_header ;;
  rows <- lift (data_rows a w) ;;
  stream a 2 rows ;;
  close_sinks.

Definition validate_csv (a : args) (w : world) : M unit :=
  let utf8_problem := check_utf8_streaming (file_bytes w (big_csv a)) in
  if truthy utf8_problem then
    print (EncodingBad (text_of utf8_problem)) ;;
    print EncodingHint
  else
    print EncodingOk ;;
    expected_header <- lift (expected_header_of a w) ;;
    print (ExpectedHeader expected_header) ;;
    header <- lift (observed_header a w) ;;
    if header_differs header expected_header then
      print HeaderMismatch ;;
      print (HeaderInFile header) ;;
      print (HeaderExpected expected_header)
    else
      print HeaderOk ;;
      pass a w expected_header ;;
      report a.

(** [main] after [parse_args]: the completion status of the process is 0
    when [validate_csv] returns and 1 when an exception leaves it. *)
Definition main (a : args) (w : world) : Z * state :=
  match validate_csv a w boot with
  | (Ret _, s) => (0, s)
  | (Raise _, s) => (1, s)
  end.

End Script.

(** ** A reference host

    CPython's behaviour on text whose whitespace and digits are ASCII; bytes
    above 127 are kept as they are and are never whitespace or digits. *)

Module Reference.

Definition code (c : ascii) : Z := Z.of_nat (nat_of_ascii c).

(** Whitespace that [int] skips at both ends. *)
Definition int_space (c : ascii) : bool :=
  ((9 <=? code c) && (code c <=? 13)) || (code c =? 32).

(** Whitespace that [str.strip] removes. *)
Definition strip_space (c : ascii) : bool :=
  int_space c || ((28 <=? code c) && (code c <=? 31)).

Definition is_digit (c : ascii) : bool := (48 <=? code c) && (code c <=? 57).

Definition underscore : ascii := ascii_of_nat 95.

Fixpoint drop_while (p : ascii -> bool) (s : list ascii) : list ascii :=
  match s with
  | [] => []
  | c :: s' => if p c then drop_while p s' else s
  end.

Definition trim (p : ascii -> bool) (s : list ascii) : list ascii :=
  rev (drop_while p (rev (drop_while p s))).

(** Digits, single underscores allowed between two digits.  [after_digit]
    tells whether the previous character was a digit. *)
Fixpoint digits (s : list ascii) (acc : Z) (after_digit : bool) : option Z :=
  match s with
  | [] => if after_digit then Some acc else None
  | c :: s' =>
      if is_digit c then digits s' (10 * acc + (code c - 48)) true
      else if Ascii.eqb c underscore && after_digit then
        match s' with
        | d :: _ => if is_digit d then digits s' acc false else None
        | [] => None
        end
      else None
  end.

Definition int (s : str) : result Z :=
  let body := trim int_space (list_ascii_of_string s) in
  let signed :=
    match body with
    | c :: rest =>
        if Ascii.eqb c "-" then option_map Z.opp (digits rest 0 false)
        else if Ascii.eqb c "+" then digits rest 0 false
        else digits body 0 false
    | [] => None
    end in
  match signed with
  | Some z => Ret z
  | None => Raise ValueError
  end.

Definition strip (s : str) : str :=
  string_of_list_ascii (trim strip_space (list_ascii_of_string s)).

Definition apostrophe : ascii := ascii_of_nat 39.
Definition dquote : ascii := ascii_of_nat 34.
Definition backslash : ascii := ascii_of_nat 92.

Definition hex_digit (n : Z) : ascii :=
  ascii_of_nat (Z.to_nat (if n <? 10 then 48 + n else 87 + n)).

(** [repr] puts the text in apostrophes, or in double quotes when it holds
    an apostrophe and no double quote, and escapes the backslash, the
    enclosing quote and the control characters. *)
Definition escape (quote : ascii) (c : ascii) : list ascii :=
  if Ascii.eqb c backslash || Ascii.eqb c quote then [backslash; c]
  else if code c =? 10 then [backslash; "n"%char]
  else if code c =? 13 then [backslash; "r"%char]
  else if code c =? 9 then [backslash; "t"%char]
  else if (code c <? 32) || (code c =? 127) then
    [backslash; "x"%char; hex_digit (code c / 16); hex_digit (code c mod 16)]
  else [c].

Definition repr (s : str) : str :=
  let cs := list_ascii_of_string s in
  let quote :=
    if existsb (Ascii.eqb apostrophe) cs && negb (existsb (Ascii.eqb dquote) cs)
    then dquote else apostrophe in
  string_of_list_ascii (quote :: flat_map (escape quote) cs ++ [quote])%list.

(** *** Strict UTF-8 *)

Definition bval (b : Byte.byte) : Z := Z.of_N (Byte.to_N b).

Definition between (lo hi : Z) (b : Byte.byte) : bool :=
  (lo <=? bval b) && (bval b <=? hi).

Definition bad_start : str := "invalid start byte".
Definition bad_continuation : str := "invalid continuation byte".
Definition truncated : str := "unexpected end of data".

(** [None] when the bytes are well-formed UTF-8, else where and why the
    first ill-formed sequence fails; [at] is the offset of the head. *)
Fixpoint utf8_scan (bs : bytes) (at_ : Z) : option (Z * str) :=
  match bs with
  | [] => None
  | b0 :: r0 =>
      if bval b0 <? 128 then utf8_scan r0 (at_ + 1)
      else if bval b0 <? 194 then Some (at_, bad_start)
      else if bval b0 <? 224 then
        match r0 with
        | [] => Some (at_, truncated)
        | b1 :: r1 =>
            if between 128 191 b1 then utf8_scan r1 (at_ + 2)
            else Some (at_, bad_continuation)
        end
      else if bval b0 <? 240 then
        match r0 with
        | [] => Some (at_, truncated)
        | b1 :: r1 =>
            if between (if bval b0 =? 224 then 160 else 128)
                       (if bval b0 =? 237 then 159 else 191) b1 then
              match r1 with
              | [] => Some (at_, truncated)
              | b2 :: r2 =>
                  if between 128 191 b2 then utf8_scan r2 (at_ + 3)
                  else Some (at_, bad_continuation)
              end
            else Some (at_, bad_continuation)
        end
      else if bval b0 <? 245 then
        match r0 with
        | [] => Some (at_, truncated)
        | b1 :: r1 =>
            if between (if bval b0 =? 240 then 144 else 128)
                       (if bval b0 =? 244 then 143 else 191) b1 then
              match r1 with
              | [] => Some (at_, truncated)
              | b2 :: r2 =>
                  if between 128 191 b2 then
                    match r2 with
                    | [] => Some (at_, truncated)
                    | b3 :: r3 =>
                        if between 128 191 b3 then utf8_scan r3 (at_ + 4)
                        else Some (at_, bad_continuation)
                    end
                  else Some (at_, bad_continuation)
              end
            else Some (at_, bad_continuation)
        end
      else Some (at_, bad_start)
  end.

Definition decode (bs : bytes) : decoded :=
  match utf8_scan bs 0 with
  | None => Text (string_of_list_byte bs)
  | Some (start, reason) => DecodeError start reason
  end.

(** *** [csv.reader], dialect [excel]

    Delimiter comma, quote character the double quote, doubled quotes inside
    a quoted field, not strict.  The parser of the [_csv] module, fed the
    characters of each line and an end-of-line signal after each line. *)

Inductive pstate : Type :=
| START_RECORD
| START_FIELD
| IN_FIELD
| IN_QUOTED_FIELD
| QUOTE_IN_QUOTED_FIELD
| EAT_CRNL.

(** The field being read and the fields already saved, both newest first. *)
Record parser : Type := {
  p_state : pstate;
  p_field : list ascii;
  p_fields : list str
}.

Definition parse_reset : parser :=
  {| p_state := START_RECORD; p_field := []; p_fields := [] |}.

Definition goto (st : pstate) (p : parser) : parser :=
  {| p_state := st; p_field := p_field p; p_fields := p_fields p |}.

Definition parse_add_char (c : ascii) (p : parser) : parser :=
  {| p_state := p_state p; p_field := c :: p_field p; p_fields := p_fields p |}.

Definition parse_save_field (p : parser) : parser :=
  {| p_state := p_state p; p_field := [];
     p_fields := string_of_list_ascii (rev (p_field p)) :: p_fields p |}.

Definition is_newline (c : ascii) : bool := (code c =? 10) || (code c =? 13).

Definition start_field (c : option ascii) (p : parser) : parser :=
  match c with
  | None => goto START_RECORD (parse_save_field p)
  | Some ch =>
      if is_newline ch then goto EAT_CRNL (parse_save_field p)
      else if Ascii.eqb ch dquote then goto IN_QUOTED_FIELD p
      else if Ascii.eqb ch "," then goto START_FIELD (parse_save_field p)
      else goto IN_FIELD (parse_add_char ch p)
  end.

(** [parse_process_char]; [None] is the end-of-line signal. *)
Definition parse_process_char (c : option ascii) (p : parser) : parser :=
  match p_state p with
  | START_RECORD =>
      match c with
      | None => p
      | Some ch =>
          if is_newline ch then goto EAT_CRNL p else start_field c p
      end
  | START_FIELD => start_field c p
  | IN_FIELD =>
      match c with
      | None => goto START_RECORD (parse_save_field p)
      | Some ch =>
          if is_newline ch then goto EAT_CRNL (parse_save_field p)
          else if Ascii.eqb ch "," then goto START_FIELD (parse_save_field p)
          else parse_add_char ch p
      end
  | IN_QUOTED_FIELD =>
      match c with
      | None => p
      | Some ch =>
          if Ascii.eqb ch dquote then goto QUOTE_IN_QUOTED_FIELD p
          else parse_add_char ch p
      end
  | QUOTE_IN_QUOTED_FIELD =>
      match c with
      | None => goto START_RECORD (parse_save_field p)
      | Some ch =>
          if Ascii.eqb ch dquote then goto IN_QUOTED_FIELD (parse_add_char ch p)
          else if Ascii.eqb ch "," then goto START_FIELD (parse_save_field p)
          else if is_newline ch then goto EAT_CRNL (parse_save_field p)
          else goto IN_FIELD (parse_add_char ch p)
      end
  | EAT_CRNL =>
      (* A line ends right after its terminator, so only a line feed after
         a carriage return can arrive here before the end-of-line signal. *)
      match c with
      | None => goto START_RECORD p
      | Some _ => p
      end
  end.

(** The end-of-line signal, then the record if one is complete. *)
Definition end_of_line (p : parser) : parser * list row :=
  let p' := parse_process_char None p in
  match p_state p' with
  | START_RECORD => (parse_reset, [rev (p_fields p')])
  | _ => (p', [])
  end.

(** The characters of the text in order.  A line ends after a line feed,
    and after a carriage return that no line feed follows; a last line
    without terminator ends at the end of the text.  [in_line] tells whether
    the current line holds a character yet. *)
Fixpoint read_chars (cs : list ascii) (p : parser) (in_line : bool) : list row :=
  match cs with
  | [] =>
      let '(p', out) := if in_line then end_of_line p else (p, []) in
      match p_state p', p_field p' with
      | START_RECORD, [] => out
      | IN_QUOTED_FIELD, _ | _, _ :: _ =>
          (out ++ [rev (p_fields (parse_save_field p'))])%list
      | _, [] => out
      end
  | c :: rest =>
      let p1 := parse_process_char (Some c) p in
      let ends :=
        (code c =? 10)
        || ((code c =? 13)
            && match rest with
               | d :: _ => negb (code d =? 10)
               | [] => true
               end) in
      if ends then
        let '(p2, out) := end_of_line p1 in
        (out ++ read_chars rest p2 false)%list
      else read_chars rest p1 true
  end.

Definition reader (text : str) : list row :=
  read_chars (list_ascii_of_string text) parse_reset false.

(** *** The first record, read lazily

    [TextIOWrapper] reads the file in chunks and hands each to the
    incremental decoder of [utf-8-sig]; [csv.reader] takes whole lines until
    a record is complete. *)

(** The bytes of one read. *)
Definition CHUNK : nat := Z.to_nat 8192.

(** Fewer than three bytes that start a byte-order mark: the decoder waits
    for more, and makes no text of them when no more comes. *)
Definition sig_pending (bs : bytes) : bool :=
  match bs with
  | [] => true
  | [b0] => Byte.eqb b0 Byte.xef
  | [b0; b1] => Byte.eqb b0 Byte.xef && Byte.eqb b1 Byte.xbb
  | _ => false
  end.

(** The text of the bytes read so far while more may come: a sequence that
    the end of these bytes cuts is kept for the next read, any other
    ill-formed sequence raises. *)
Definition decode_so_far (bs : bytes) : result str :=
  if sig_pending bs then Ret EmptyString
  else
    match utf8_scan (strip_bom bs) 0 with
    | None => Ret (string_of_list_byte (strip_bom bs))
    | Some (start, reason) =>
        if String.eqb reason truncated then
          Ret (string_of_list_byte (firstn (Z.to_nat start) (strip_bom bs)))
        else Raise UnicodeDecodeError
    end.

(** The text of the whole file once its end is read. *)
Definition decode_at_end (bs : bytes) : result str :=
  if sig_pending bs then Ret EmptyString
  else
    match decode (strip_bom bs) with
    | Text t => Ret t
    | DecodeError _ _ => Raise UnicodeDecodeError
    end.

(** The first record of the text read so far, when the reader needs no more
    text for it.  A line ends after a line feed, and after a carriage return
    once the character behind it is known. *)
Fixpoint first_complete (cs : list ascii) (p : parser) : option row :=
  match cs with
  | [] => None
  | c :: rest =>
      let p1 := parse_process_char (Some c) p in
      let ends :=
        (code c =? 10)
        || ((code c =? 13)
            && match rest with
               | d :: _ => negb (code d =? 10)
               | [] => false
               end) in
      if ends then
        match end_of_line p1 with
        | (_, r :: _) => Some r
        | (p2, []) => first_complete rest p2
        end
      else first_complete rest p1
  end.

(** One read after the other until the first record is complete or the file
    ends; [seen] holds the bytes read so far and [rest] those behind them. *)
Fixpoint read_lazily (fuel : nat) (seen rest : bytes) : result (option row) :=
  match fuel, rest with
  | S fuel', _ :: _ =>
      let seen' := (seen ++ firstn CHUNK rest)%list in
      rbind (decode_so_far seen') (fun t =>
        match first_complete (list_ascii_of_string t) parse_reset with
        | Some r => Ret (Some r)
        | None => read_lazily fuel' seen' (skipn CHUNK rest)
        end)
  | _, _ =>
      rmap (fun t => hd_error (reader t)) (decode_at_end (seen ++ rest)%list)
  end.

Definition first (content : bytes) : result (option row) :=
  read_lazily (length content) [] content.

#[export] Instance host : Host := {|
  py_int := int;
  py_strip := strip;
  py_repr := repr;
  utf8_decode := decode;
  csv_reader := reader;
  first_record := first
|}.

End Reference.

(** ** What the properties observe *)

Definition all_kinds : list ErrorKind :=
  [FieldsCount; IdxNotInt; NameEmpty; FreqNotInt; FreqNegative].

(** [sum(err_counts.values())] *)
Definition sum_values (d : dict Z) : Z :=
  fold_right (fun kv acc => snd kv + acc) 0 d.

(** The sum over the five kinds of the count kept for the kind. *)
Definition sum_kinds (d : dict Z) : Z :=
  fold_right (fun k acc => dict_get_or d (kind_code k) 0 + acc) 0 all_kinds.

Definition balanced (s : state) : Prop :=
  valid s + sum_kinds (err_counts s) = total s
  /\ sum_values (err_counts s) = sum_kinds (err_counts s).

(** The state in which the loop of line 147 starts: counters at zero, no
    sample, whatever sinks and console the run has by then. *)
Definition at_entry (cfh efh : option handle) (con : list event) : state :=
  {| total := 0; valid := 0; err_counts := []; err_samples := [];
     printed := 0; clean_fh := cfh; err_fh := efh; console := con |}.

Definition is_row_error (e : event) : bool :=
  match e with
  | RowError _ => true
  | _ => false
  end.

(** Number of per-record error messages on the console. *)
Definition row_errors (con : list event) : Z := len (filter is_row_error con).

Definition is_report_total (e : event) : bool :=
  match e with
  | ReportTotal _ => true
  | _ => false
  end.

(** The sample set kept for a kind. *)
Definition samples_of (s : state) (code : str) : list (option str) :=
  dict_get_or (err_samples s) code [].

(** The data records of the clean copy: every row after its header row. *)
Definition clean_records (s : state) : list row :=
  match clean_fh s with
  | Some h => tl (h_rows h)
  | None => []
  end.

Definition closes_of (o : option handle) : option nat := option_map h_closes o.

Definition rows_of (o : option handle) : list row :=
  match o with
  | Some h => h_rows h
  | None => []
  end.

(** Every sink the run holds has received exactly [n] calls of [close]. *)
Definition sinks_closed (n : nat) (s : state) : Prop :=
  (forall h, clean_fh s = Some h -> h_closes h = n)
  /\ (forall h, err_fh s = Some h -> h_closes h = n).

(** No sink the run holds has been closed twice, and the error log has been
    closed only if the clean copy has: lines 181 and 183 run in this order,
    and once. *)
Definition closed_in_turn (s : state) : Prop :=
  (forall h, clean_fh s = Some h -> (h_closes h <= 1)%nat)
  /\ (forall h, err_fh s = Some h -> (h_closes h <= 1)%nat)
  /\ (forall hc he, clean_fh s = Some hc -> err_fh s = Some he ->
                    (h_closes he <= h_closes hc)%nat).

(** The state in which the pass of lines 122-183 starts. *)
Definition pass_entry (expected_header : row) : state :=
  set_console [EncodingOk; ExpectedHeader expected_header; HeaderOk] boot.

Section Observations.
Context `{Host}.

(** The record validator in isolation says valid. *)
Definition is_valid (r : row) : bool :=
  match validate_row r 0 with
  | Ret (None, _) => true
  | _ => false
  end.

(** The messages of the records classified [code], in line order. *)
Fixpoint occurrences (code : str) (line_no : Z) (rows : list row)
  : list (option str) :=
  match rows with
  | [] => []
  | r :: rest =>
      match validate_row r line_no with
      | Ret (Some c, msg) =>
          if String.eqb c code then msg :: occurrences code (line_no + 1) rest
          else occurrences code (line_no + 1) rest
      | _ => occurrences code (line_no + 1) rest
      end
  end.

Definition invalid_count (rows : list row) : Z :=
  len (filter (fun r => negb (is_valid r)) rows).

End Observations.

(** The loop of lines 147-178 in a run whose checks have passed: over the
    records [rows], from the state in which lines 122-142 leave the run. *)
Definition loop_of `{Host} (a : args) (w : world) (expected_header : row)
  (rows : list row) : result unit * state :=
  stream a 2 rows
    (snd (init_pass a w expected_header (pass_entry expected_header))).

(** A handle is open and its file never fills. *)
Definition unbounded (o : option handle) : Prop :=
  match o with
  | None => True
  | Some h => h_room h = None /\ h_closes h = 0%nat
  end.

(** A sample set [l] offered the messages [occ] one at a time under the cap
    [k] of line 162. *)
Definition extend (k : Z) (l occ : list (option str)) : list (option str) :=
  fold_left (fun l m => if len l <? k then (l ++ [m])%list else l) occ l.

(** The record validator accepts the record at every line number. *)
Definition valid_anywhere `{Host} (r : row) : Prop :=
  forall line_no, validate_row r line_no = Ret (None, None).

(** From a state satisfying [P], [m] ends in a result and a state that
    satisfy [Q], whether it returns or raises. *)
Definition triple {A} (P : state -> Prop) (m : M A)
  (Q : result A -> state -> Prop) : Prop :=
  forall s, P s -> Q (fst (m s)) (snd (m s)).

(** The same when the result does not matter. *)
Definition hoare {A} (P : state -> Prop) (m : M A) (Q : state -> Prop) : Prop :=
  triple P m (fun _ => Q).

(** [m] returns from every state satisfying [P], and keeps [P]. *)
Definition steady {A} (P : state -> Prop) (m : M A) : Prop :=
  forall s, P s -> (exists x, fst (m s) = Ret x) /\ P (snd (m s)).

(** [P] does not depend on the console lines other than the per-record
    error lines. *)
Definition quiet (P : state -> Prop) : Prop :=
  forall e s, is_row_error e = false -> P s ->
              P (set_console (console s ++ [e]) s).

(** ** Sample runs on the reference host *)

Module Scenario.

Definition LF : str := String (ascii_of_nat 10) EmptyString.

(** The bytes of a file with the given lines. *)
Definition lines (l : list str) : bytes :=
  list_byte_of_string (String.concat LF l ++ LF).

Definition header_line : str := "Unnamed: 0,name,frequency".

Definition no_limit : str -> option nat := fun _ => None.

(** The rows of these runs are few and short: the buffer of a sink holds
    them all until [close()]. *)
Definition buffer_rows : nat := 64.

Definition world_of (big : bytes) (room : str -> option nat) : world :=
  {| file_bytes := fun _ => big; sink_room := room;
     sink_buffer := fun _ => buffer_rows |}.

(** The command line [--big big.csv] with the defaults of [main]. *)
Definition defaults : args :=
  {| big_csv := "big.csv"; sample_csv := None; out_clean := None;
     errors_out := None; sample_per_type := 5; max_print_errors := 50;
     progress_every := 100000 |}.

(** [--big big.csv --out-clean clean.csv --errors-out errors.csv.gz] *)
Definition with_sinks : args :=
  {| big_csv := "big.csv"; sample_csv := None; out_clean := Some "clean.csv";
     errors_out := Some "errors.csv.gz"; sample_per_type := 5;
     max_print_errors := 50; progress_every := 100000 |}.

(** One valid record and one record of each of three kinds. *)
Definition mixed : bytes :=
  lines [header_line; "0,Alice,5"; "1,,3"; "2,Bob,-1"; "x,Carl,2"].

(** A header of two columns. *)
Definition short_header : bytes := lines ["a,b"; "0,Alice,5"].

(** A byte that is not UTF-8 in the second line. *)
Definition bad_encoding : bytes :=
  (lines [header_line] ++ [Byte.x30; Byte.xff; Byte.x0a])%list.

(** Ten records of one field. *)
Definition ten_short : bytes := lines (header_line :: repeat "x" 10).

(** [--sample-per-type 3 --max-print-errors 2] *)
Definition three_samples : args :=
  {| big_csv := "big.csv"; sample_csv := None; out_clean := None;
     errors_out := None; sample_per_type := 3; max_print_errors := 2;
     progress_every := 0 |}.

(** Every record invalid. *)
Definition all_invalid : bytes := lines [header_line; "x,y,z"; ",,"; "1,2"].

(** The clean copy is written to a device that is full, as [/dev/full]. *)
Definition device_full : str -> option nat := fun p =>
  if String.eqb p "clean.csv" then Some 0%nat else None.

(** The records of [mixed], as the loop receives them. *)
Definition mixed_rows : list row :=
  [["0"; "Alice"; "5"]; ["1"; EmptyString; "3"]; ["2"; "Bob"; "-1"];
   ["x"; "Carl"; "2"]].

(** The error log is written to a device that is full. *)
Definition log_full : str -> option nat := fun p =>
  if String.eqb p "errors.csv" then Some 0%nat else None.

(** Two records of 1200 fields: the row of the error log for one of them
    is more than the buffers of a file object hold. *)
Definition wide_record : row := repeat "AAAA" 1200.

Definition wide_rows : list row := [wide_record; wide_record].

Definition wide_records : bytes :=
  lines [header_line; String.concat "," wide_record;
         String.concat "," wide_record].

(** [--big big.csv --out-clean clean.csv --errors-out errors.csv] *)
Definition with_log : args :=
  {| big_csv := "big.csv"; sample_csv := None; out_clean := Some "clean.csv";
     errors_out := Some "errors.csv"; sample_per_type := 5;
     max_print_errors := 50; progress_every := 100000 |}.

(** The file of the wide records, the error log on a device that is full,
    and buffers that hold a header row but not the row of a wide record
    with it. *)
Definition wide_world : world :=
  {| file_bytes := fun _ => wide_records; sink_room := log_full;
     sink_buffer := fun _ => 1%nat |}.

(** A file that starts with a byte-order mark. *)
Definition with_bom : bytes := (BOM ++ lines [header_line; "0,Alice,5"])%list.

(** The byte-order mark as text. *)
Definition bom_text : str := string_of_list_byte BOM.

(** Three records of one field, as the loop receives them, and a fourth. *)
Definition short_rows : list row := [["x"]; ["y"]; ["z"]].

(** A run on the reference host over a subject file with the given bytes. *)
Definition run (a : args) (big : bytes) (room : str -> option nat)
  : result unit * state :=
  @validate_csv Reference.host a (world_of big room) boot.

(** The loop alone, from line 2, without sinks and with an empty console. *)
Definition run_loop (a : args) (rows : list row) : result unit * state :=
  @stream Reference.host a 2 rows (at_entry None None []).

End Scenario.

(** ** Further observations *)

Definition is_progress (e : event) : bool :=
  match e with
  | Progress _ => true
  | _ => false
  end.

(** The condition of line 177 on the value of [total]. *)
Definition progress_due (a : args) (t : Z) : bool :=
  negb (progress_every a =? 0) && (t mod progress_every a =? 0).

(** The integers [from + 1, ..., from + n]. *)
Fixpoint count_from (from : Z) (n : nat) : list Z :=
  match n with
  | O => []
  | S n' => (from + 1) :: count_from (from + 1) n'
  end.

(** The row of the error log for a record classified [code] (lines
    167-170). *)
Definition error_row (line_no : Z) (r : row) (code : str) (msg : option str)
  : row :=
  [dec line_no; code; csv_cell msg; cell 0 r; cell 1 r; cell 2 r;
   dec (len r)].

Section FurtherObservations.
Context `{Host}.

(** The rows of the error log for the invalid records, in line order. *)
Fixpoint error_rows (line_no : Z) (rows : list row) : list row :=
  match rows with
  | [] => []
  | r :: rest =>
      match validate_row r line_no with
      | Ret (Some code, msg) =>
          error_row line_no r code msg :: error_rows (line_no + 1) rest
      | _ => error_rows (line_no + 1) rest
      end
  end.

(** The messages of the invalid records, of every kind, in line order. *)
Fixpoint invalid_messages (line_no : Z) (rows : list row)
  : list (option str) :=
  match rows with
  | [] => []
  | r :: rest =>
      match validate_row r line_no with
      | Ret (Some _, msg) => msg :: invalid_messages (line_no + 1) rest
      | _ => invalid_messages (line_no + 1) rest
      end
  end.

End FurtherObservations.

(** The entries of [l] whose count is [c], in their order. *)
Definition with_count (c : Z) (l : list (str * Z)) : list (str * Z) :=
  filter (fun x => snd x =? c) l.

(** ** Further sample inputs *)

Module Samples.

(** [--progress-every 2 --max-print-errors 1 --sample-per-type 0] *)
Definition terse : args :=
  {| big_csv := "big.csv"; sample_csv := None; out_clean := None;
     errors_out := None; sample_per_type := 0; max_print_errors := 1;
     progress_every := 2 |}.

(** Two valid records, a short one and one with a negative frequency. *)
Definition four_rows : list row :=
  [["0"; "Alice"; "5"]; ["7"]; ["1"; "Bob"; "2"]; ["2"; "Eve"; "-3"]].

(** An open sink that holds its header row and never fills. *)
Definition fresh (header : row) : handle :=
  {| h_rows := [header]; h_pending := 1; h_room := None;
     h_buffer := Scenario.buffer_rows; h_gzip := false; h_closes := 0 |}.

(** The loop over [four_rows] from line 2 with both sinks open. *)
Definition loop_state (a : args) : state :=
  snd (@stream Reference.host a 2 four_rows
         (at_entry (Some (fresh EXPECTED_HEADER)) (Some (fresh ["line_no"]))
            [])).

(** A sample file with a byte that is not UTF-8 in its second line, beside
    a subject file that is UTF-8. *)
Definition bad_sample : world :=
  {| file_bytes := fun p =>
       if String.eqb p "sample.csv" then Scenario.bad_encoding
       else Scenario.mixed;
     sink_room := Scenario.no_limit;
     sink_buffer := fun _ => Scenario.buffer_rows |}.


(** [--big big.csv --sample sample.csv] *)
Definition sampled : args :=
  {| big_csv := "big.csv"; sample_csv := Some "sample.csv";
     out_clean := None; errors_out := None; sample_per_type := 5;
     max_print_errors := 50; progress_every := 100000 |}.

End Samples.

(** The lines of the report of lines 185-207 for the counters of [s]. *)
Definition report_lines (a : args) (s : state) : list event :=
  ([Rule; ReportTotal (total s); ReportValid (valid s);
    ReportInvalid (total s - valid s)]
   ++ (if truthy (out_clean a) then [ReportClean (text_of (out_clean a))]
       else [])
   ++ (if truthy (errors_out a) then [ReportErrors (text_of (errors_out a))]
       else [])
   ++ match err_counts s with
      | [] => [NoErrors]
      | _ :: _ =>
          [SummaryTitle]
          ++ flat_map (fun '(code, cnt) => [SummaryCount code cnt])
               (sorted_by_count (err_counts s))
          ++ [SamplesTitle (sample_per_type a)]
          ++ flat_map
               (fun '(code, samples) => SampleKind code :: map Sample samples)
               (err_samples s)
      end)%list.

(** [m] returns after printing the lines [l] and nothing else. *)
Definition emits (m : M unit) (l : list event) : Prop :=
  forall s, m s = (Ret tt, set_console (console s ++ l) s).

(** The start of every message of [validate_row]. *)
Definition line_prefix (line_no : Z) : str :=
  "Строка " ++ dec line_no ++ ": ".

(** ** ch_export_schema.py: string literals *)

(** [s.replace(old, new)] for a pattern [old] of one character. *)
Fixpoint replace_char (old : ascii) (new : str) (s : str) : str :=
  match s with
  | EmptyString => EmptyString
  | String c s' =>
      (if Ascii.eqb c old then new else String c EmptyString)
        ++ replace_char old new s'
  end.

(** The ClickHouse string literal of [s]: backslashes doubled, then a
    backslash before each apostrophe, between apostrophes. *)
Definition ch_str (s : str) : str :=
  "'" ++ replace_char "'" "\'" (replace_char "\" "\\" s) ++ "'".

(** Reading the body of a literal: a backslash escapes the backslash or the
    apostrophe that follows it, and a bare apostrophe ends the literal and
    the text. *)
Fixpoint read_body (s : str) : option str :=
  match s with
  | EmptyString => None
  | String c rest =>
      if Ascii.eqb c "'" then
        match rest with
        | EmptyString => Some EmptyString
        | String _ _ => None
        end
      else if Ascii.eqb c "\" then
        match rest with
        | String d rest' =>
            if Ascii.eqb d "\" || Ascii.eqb d "'" then
              option_map (String d) (read_body rest')
            else None
        | EmptyString => None
        end
      else option_map (String c) (read_body rest)
  end.

Definition read_literal (s : str) : option str :=
  match s with
  | String c body => if Ascii.eqb c "'" then read_body body else None
  | EmptyString => None
  end.

(** * Properties *)

(** ** Basic facts *)

Lemma len_eqb_3 {A} (l : list A) : (len l =? 3) = (length l =? 3)%nat.
Proof.
  unfold len.
  destruct (Nat.eqb_spec (length l) 3) as [E | E].
  - rewrite E. reflexivity.
  - apply Z.eqb_neq. lia.
Qed.

Lemma len_app {A} (l1 l2 : list A) : len (l1 ++ l2) = len l1 + len l2.
Proof. unfold len. rewrite length_app. lia. Qed.

Lemma len_nonneg {A} (l : list A) : 0 <= len l.
Proof. unfold len. lia. Qed.

Lemma row_eqb_eq (a b : row) : row_eqb a b = true <-> a = b.
Proof.
  revert b. induction a as [| x a IH]; intros [| y b]; simpl;
    try (split; (discriminate || reflexivity)).
  rewrite andb_true_iff, String.eqb_eq, IH.
  split.
  - intros [-> ->]. reflexivity.
  - intros E. injection E as -> ->. split; reflexivity.
Qed.

Lemma header_differs_iff (h : option row) (eh : row) :
  header_differs h eh = true <-> h <> Some eh.
Proof.
  destruct h as [h |]; simpl.
  - rewrite negb_true_iff. split.
    + intros E F. injection F as ->.
      assert (row_eqb eh eh = true) by (apply row_eqb_eq; reflexivity).
      congruence.
    + intros N. destruct (row_eqb h eh) eqn:E; [| reflexivity].
      apply row_eqb_eq in E. subst. contradiction.
  - split; [discriminate | reflexivity].
Qed.

Lemma kind_code_inj (k k' : ErrorKind) : kind_code k = kind_code k' -> k = k'.
Proof. destruct k, k'; simpl; intros E; (reflexivity || discriminate E). Qed.

(** ** The record validator *)

Section RecordValidator.
Context `{Host}.

Lemma first_failure_none (rules : list rule) (r : row) :
  first_failure rules r = None <-> Forall (fun check => check r = None) rules.
Proof.
  induction rules as [| c rules IH]; simpl.
  - split; [constructor | reflexivity].
  - destruct (c r) eqn:E.
    + split; [discriminate |].
      intros F. inversion F; subst. congruence.
    + rewrite IH. split.
      * intros F. constructor; assumption.
      * intros F. inversion F; assumption.
Qed.

Lemma unpack3_ok (r : row) :
  length r = 3%nat -> exists a b c, r = [a; b; c] /\ unpack3 r = Ret (a, b, c).
Proof.
  destruct r as [| a [| b [| c [| d r]]]]; simpl; try discriminate.
  intros _. exists a, b, c. split; reflexivity.
Qed.

Lemma unpack3_raises (r : row) :
  unpack3 r = Raise ValueError <-> length r <> 3%nat.
Proof.
  destruct r as [| a [| b [| c [| d r]]]]; simpl;
    (split; [intros E; (discriminate E || (intros F; discriminate F))
            | intros N; (reflexivity || (exfalso; apply N; reflexivity))]).
Qed.

(** The code and the message of [validate_row], read off the rules. *)
Lemma validate_row_classify (r : row) (line_no : Z) :
  exists msg,
    validate_row r line_no = Ret (option_map kind_code (classify r), msg)
    /\ (msg = None <-> classify r = None).
Proof.
  unfold validate_row, classify, four_rules, first_failure, rule_count.
  rewrite len_eqb_3.
  destruct (Nat.eqb_spec (length r) 3) as [E | E]; simpl.
  - destruct (unpack3_ok r E) as (a & b & c & -> & ->). simpl.
    unfold rule_index, rule_name, rule_frequency, parses, field. simpl.
    destruct (py_int a); simpl.
    + destruct (String.eqb (py_strip b) EmptyString); simpl.
      * eexists. split; [reflexivity | split; discriminate].
      * destruct (py_int c) as [fr |]; simpl.
        -- destruct (fr <? 0); simpl; eexists;
             (split; [reflexivity | split; (discriminate || reflexivity)]).
        -- eexists. split; [reflexivity | split; discriminate].
    + eexists. split; [reflexivity | split; discriminate].
  - eexists. split; [reflexivity | split; discriminate].
Qed.

Lemma validate_row_returns (r : row) (line_no : Z) :
  exists code msg, validate_row r line_no = Ret (code, msg).
Proof.
  destruct (validate_row_classify r line_no) as (msg & E & _).
  eauto.
Qed.

(** The line number reaches the message only. *)
Lemma validate_row_code_line (r : row) (l1 l2 : Z) :
  rmap fst (validate_row r l1) = rmap fst (validate_row r l2).
Proof.
  destruct (validate_row_classify r l1) as (m1 & -> & _).
  destruct (validate_row_classify r l2) as (m2 & -> & _).
  reflexivity.
Qed.

Lemma validate_row_valid (r : row) (line_no : Z) (msg : option str) :
  validate_row r line_no = Ret (None, msg) ->
  forall l, validate_row r l = Ret (None, None).
Proof.
  intros E l.
  destruct (validate_row_classify r line_no) as (m1 & E1 & _).
  destruct (validate_row_classify r l) as (m2 & E2 & I2).
  rewrite E1 in E. injection E as C _.
  destruct (classify r); [discriminate C |].
  rewrite E2. simpl. f_equal. f_equal. apply I2. reflexivity.
Qed.

Lemma validate_row_code_kind (r : row) (line_no : Z) (code : str)
  (msg : option str) :
  validate_row r line_no = Ret (Some code, msg) ->
  exists k, code = kind_code k.
Proof.
  intros E.
  destruct (validate_row_classify r line_no) as (m1 & E1 & _).
  rewrite E1 in E. injection E as C _.
  destruct (classify r) as [k |]; [| discriminate C].
  exists k. simpl in C. congruence.
Qed.

End RecordValidator.

(** C1. [validate_row] applies the four rules in their order: its error code
    is that of the first rule the record fails, a record without exactly
    three fields is classified [fields_count] whatever its fields hold, and
    it returns [(None, None)] exactly when the record passes all four. *)
Theorem validate_row_four_checks `{Host} (r : row) (line_no : Z) :
  rmap fst (validate_row r line_no) = Ret (option_map kind_code (classify r))
  /\ (validate_row r line_no = Ret (None, None)
      <-> Forall (fun check : rule => check r = None) four_rules)
  /\ (length r <> 3%nat ->
      rmap fst (validate_row r line_no) = Ret (Some "fields_count")).
Proof.
  destruct (validate_row_classify r line_no) as (msg & E & I).
  rewrite E. simpl. split; [reflexivity |]. split.
  - rewrite <- first_failure_none. fold (classify r). split.
    + intros F. injection F as C _.
      destruct (classify r); [discriminate C | reflexivity].
    + intros C. rewrite C. simpl. f_equal. f_equal. apply I. exact C.
  - intros N. unfold classify, four_rules, first_failure, rule_count.
    destruct (Nat.eqb_spec (length r) 3) as [F | _]; [contradiction |].
    reflexivity.
Qed.

(** C10. [validate_row] returns a pair for every list of fields and every
    line number; the unpacking on line 49 raises exactly on the lists the
    count check of line 46 has already answered. *)
Theorem validate_row_total `{Host} (r : row) (line_no : Z) :
  (exists code msg, validate_row r line_no = Ret (code, msg))
  /\ (unpack3 r = Raise ValueError <-> negb (len r =? 3) = true).
Proof.
  split.
  - apply validate_row_returns.
  - rewrite unpack3_raises, len_eqb_3, negb_true_iff.
    destruct (Nat.eqb_spec (length r) 3); split; intros; congruence.
Qed.

(** ** Dictionaries and counters *)

Lemma dict_get_set {V} (d : dict V) (k k' : str) (v : V) :
  dict_get (dict_set d k v) k' =
  if String.eqb k k' then Some v else dict_get d k'.
Proof.
  induction d as [| [k0 v0] d IH]; simpl.
  - reflexivity.
  - destruct (String.eqb_spec k0 k) as [-> | N]; simpl.
    + destruct (String.eqb k k'); reflexivity.
    + rewrite IH.
      destruct (String.eqb_spec k0 k') as [-> | N'];
        destruct (String.eqb_spec k k') as [-> | N'']; congruence.
Qed.

Lemma dict_get_or_set {V} (d : dict V) (k k' : str) (v dflt : V) :
  dict_get_or (dict_set d k v) k' dflt =
  if String.eqb k k' then v else dict_get_or d k' dflt.
Proof.
  unfold dict_get_or. rewrite dict_get_set.
  destruct (String.eqb k k'); reflexivity.
Qed.

Lemma sum_values_set (d : dict Z) (k : str) (v : Z) :
  sum_values (dict_set d k v) = sum_values d - dict_get_or d k 0 + v.
Proof.
  unfold dict_get_or.
  induction d as [| [k0 v0] d IH]; simpl.
  - lia.
  - destruct (String.eqb k0 k); simpl; lia.
Qed.

Lemma sum_kinds_set (d : dict Z) (k : ErrorKind) (v : Z) :
  sum_kinds (dict_set d (kind_code k) v) =
  sum_kinds d - dict_get_or d (kind_code k) 0 + v.
Proof.
  unfold sum_kinds, all_kinds, fold_right.
  rewrite !dict_get_or_set.
  destruct k; simpl; lia.
Qed.

(** ** The effect of one record *)

Section RecordError.
Context `{Host}.
Variables (a : args) (code : str) (msg : option str) (s : state).

Lemma record_error_total : total (record_error a code msg s) = total s.
Proof. unfold record_error. repeat (destruct (_ : bool)); reflexivity. Qed.

Lemma record_error_valid : valid (record_error a code msg s) = valid s.
Proof. unfold record_error. repeat (destruct (_ : bool)); reflexivity. Qed.

Lemma record_error_printed : printed (record_error a code msg s) = printed s.
Proof. unfold record_error. repeat (destruct (_ : bool)); reflexivity. Qed.

Lemma record_error_clean_fh : clean_fh (record_error a code msg s) = clean_fh s.
Proof. unfold record_error. repeat (destruct (_ : bool)); reflexivity. Qed.

Lemma record_error_err_fh : err_fh (record_error a code msg s) = err_fh s.
Proof. unfold record_error. repeat (destruct (_ : bool)); reflexivity. Qed.

Lemma record_error_console : console (record_error a code msg s) = console s.
Proof. unfold record_error. repeat (destruct (_ : bool)); reflexivity. Qed.

Lemma record_error_counts :
  err_counts (record_error a code msg s) =
  dict_set (err_counts s) code (dict_get_or (err_counts s) code 0 + 1).
Proof. unfold record_error. repeat (destruct (_ : bool)); reflexivity. Qed.

End RecordError.

Lemma ensure_key_get {V} (d : dict (list V)) (code c : str) :
  dict_get_or (if dict_mem d code then d else dict_set d code []) c [] =
  dict_get_or d c [].
Proof.
  unfold dict_mem. destruct (dict_get d code) eqn:G; [reflexivity |].
  rewrite dict_get_or_set.
  destruct (String.eqb_spec code c) as [<- | _]; [| reflexivity].
  unfold dict_get_or. rewrite G. reflexivity.
Qed.

Lemma record_error_err_samples `{Host} (a : args) (code : str)
  (msg : option str) (s : state) :
  err_samples (record_error a code msg s) =
  let d := if dict_mem (err_samples s) code then err_samples s
           else dict_set (err_samples s) code [] in
  if len (dict_get_or d code []) <? sample_per_type a
  then dict_set d code (dict_get_or d code [] ++ [msg])%list else d.
Proof.
  unfold record_error. simpl.
  destruct (dict_mem (err_samples s) code); simpl;
    destruct (_ <? _); reflexivity.
Qed.

Lemma record_error_samples `{Host} (a : args) (code : str) (msg : option str)
  (s : state) (c : str) :
  samples_of (record_error a code msg s) c =
  if String.eqb code c && (len (samples_of s c) <? sample_per_type a)
  then (samples_of s c ++ [msg])%list else samples_of s c.
Proof.
  unfold samples_of. rewrite record_error_err_samples. cbv zeta.
  rewrite (ensure_key_get (err_samples s) code code).
  destruct (String.eqb_spec code c) as [<- | N]; simpl.
  - destruct (_ <? _).
    + rewrite dict_get_or_set, String.eqb_refl. reflexivity.
    + apply ensure_key_get.
  - destruct (_ <? _).
    + rewrite dict_get_or_set.
      destruct (String.eqb_spec code c); [contradiction |].
      apply ensure_key_get.
    + apply ensure_key_get.
Qed.

Create Rewrite HintDb frame.
#[local] Hint Rewrite
  @record_error_total @record_error_valid @record_error_printed
  @record_error_clean_fh @record_error_err_fh @record_error_console
  @record_error_counts : frame.

Ltac break_match :=
  match goal with
  | |- context [match ?x with _ => _ end] =>
      match x with
      | context [match _ with _ => _ end] => fail 1
      | _ => destruct x eqn:?
      end
  end.

Ltac run :=
  unfold body, on_valid, on_invalid, heartbeat, write_clean, write_errors,
    print, when, bind, lift, gets, modify, ret;
  simpl;
  repeat (break_match; simpl);
  autorewrite with frame in *; simpl.

Section Body.
Context `{Host}.
Variables (a : args) (line_no : Z) (r : row) (s : state).

Lemma body_total : total (snd (body a line_no r s)) = total s + 1.
Proof. run; reflexivity. Qed.

Lemma body_balanced : balanced s -> balanced (snd (body a line_no r s)).
Proof.
  unfold balanced. intros [B1 B2].
  destruct (validate_row r line_no) as [[[c |] m] | e] eqn:V.
  - pose proof V as K. apply validate_row_code_kind in K. destruct K as (k & ->).
    unfold body, bind, lift, modify. simpl. rewrite V.
    run; rewrite sum_values_set, sum_kinds_set; lia.
  - unfold body, bind, lift, modify. simpl. rewrite V.
    run; lia.
  - destruct (validate_row_returns r line_no) as (? & ? & E). congruence.
Qed.

End Body.

(** ** Triples over [M] *)



Lemma triple_bind {A B} (P : state -> Prop) (R : A -> state -> Prop)
  (Q : result B -> state -> Prop) (m : M A) (k : A -> M B) :
  triple P m (fun r s => match r with
                         | Ret x => R x s
                         | Raise e => Q (Raise e) s
                         end) ->
  (forall x, triple (R x) (k x) Q) ->
  triple P (bind m k) Q.
Proof.
  intros Hm Hk s Ps. specialize (Hm s Ps). unfold bind.
  destruct (m s) as [[x | e] s']; simpl in *.
  - apply Hk. exact Hm.
  - exact Hm.
Qed.

Lemma hoare_bind {A B} (P R Q : state -> Prop) (m : M A) (k : A -> M B) :
  hoare P m R -> (forall x, hoare R (k x) Q) -> (forall s, R s -> Q s) ->
  hoare P (bind m k) Q.
Proof.
  intros Hm Hk RQ. apply triple_bind with (R := fun _ => R).
  - intros s Ps. specialize (Hm s Ps). simpl in Hm.
    destruct (fst (m s)); auto.
  - exact Hk.
Qed.

Lemma hoare_seq {A B} (P : state -> Prop) (m : M A) (k : A -> M B) :
  hoare P m P -> (forall x, hoare P (k x) P) -> hoare P (bind m k) P.
Proof. intros Hm Hk. apply hoare_bind with (R := P); auto. Qed.

Lemma hoare_weaken {A} (P P' Q Q' : state -> Prop) (m : M A) :
  hoare P m Q -> (forall s, P' s -> P s) -> (forall s, Q s -> Q' s) ->
  hoare P' m Q'.
Proof. intros Hm HP HQ s Ps. apply HQ, Hm, HP, Ps. Qed.

Lemma hoare_ret {A} (P : state -> Prop) (x : A) : hoare P (ret x) P.
Proof. intros s Ps. exact Ps. Qed.

Lemma hoare_lift {A} (P : state -> Prop) (r : result A) : hoare P (lift r) P.
Proof. intros s Ps. exact Ps. Qed.

Lemma hoare_gets {A} (P : state -> Prop) (f : state -> A) : hoare P (gets f) P.
Proof. intros s Ps. exact Ps. Qed.

Lemma hoare_modify (P Q : state -> Prop) (f : state -> state) :
  (forall s, P s -> Q (f s)) -> hoare P (modify f) Q.
Proof. intros Hf s Ps. apply Hf, Ps. Qed.

Lemma hoare_when (P : state -> Prop) (b : bool) (m : M unit) :
  hoare P m P -> hoare P (when b m) P.
Proof. intros Hm. destruct b; [exact Hm | apply hoare_ret]. Qed.

Lemma hoare_for_each {A} (P : state -> Prop) (l : list A) (f : A -> M unit) :
  (forall x, hoare P (f x) P) -> hoare P (for_each l f) P.
Proof.
  intros Hf. induction l as [| x l IH]; simpl.
  - apply hoare_ret.
  - apply hoare_seq; [apply Hf | intros _; exact IH].
Qed.

(** A predicate that does not read the console survives [print]; one that
    does survives the events it does not count. *)
Lemma hoare_print (P : state -> Prop) (e : event) :
  (forall s, P s -> P (set_console (console s ++ [e]) s)) ->
  hoare P (print e) P.
Proof. intros Hp. apply hoare_modify. exact Hp. Qed.

Lemma row_errors_app (c1 c2 : list event) :
  row_errors (c1 ++ c2) = row_errors c1 + row_errors c2.
Proof. unfold row_errors. rewrite filter_app. apply len_app. Qed.


Lemma handle_write_ret (h h' : handle) (cells : row) :
  handle_write h cells = Ret h' ->
  h_rows h' = (h_rows h ++ [cells])%list /\ h_closes h' = h_closes h
  /\ h_closes h = 0%nat /\ (h_room h = None -> h_room h' = None).
Proof.
  unfold handle_write, take, rbind.
  destruct (h_closes h) eqn:C; [| discriminate].
  destruct (S (h_pending h) <=? h_buffer h)%nat.
  - intros E; injection E as <-; simpl; auto.
  - destruct (h_room h) as [k |] eqn:R.
    + destruct (S (h_pending h) <=? k)%nat; [| discriminate].
      intros E; injection E as <-; simpl; repeat split; auto; discriminate.
    + intros E; injection E as <-; simpl; auto.
Qed.

Lemma handle_write_unbounded (h : handle) (cells : row) :
  unbounded (Some h) -> exists h', handle_write h cells = Ret h'.
Proof.
  simpl. intros [R C]. unfold handle_write, take, rbind. rewrite R, C.
  destruct (_ <=? _)%nat; eauto.
Qed.

Ltac write_facts :=
  repeat match goal with
         | E : handle_write _ _ = Ret _ |- _ =>
             apply handle_write_ret in E; destruct E as (? & ? & ? & ?)
         end.

Lemma is_valid_code `{Host} (r : row) (line_no : Z) (c m : option str) :
  validate_row r line_no = Ret (c, m) ->
  is_valid r = match c with None => true | Some _ => false end.
Proof.
  intros V. unfold is_valid.
  pose proof (validate_row_code_line r line_no 0) as E.
  rewrite V in E. simpl in E.
  destruct (validate_row r 0) as [[c0 m0] |]; simpl in E; [| discriminate].
  injection E as <-. destruct c; reflexivity.
Qed.

Ltac ltb_facts :=
  repeat match goal with
         | E : (_ <? _) = true |- _ => apply Z.ltb_lt in E
         | E : (_ <? _) = false |- _ => apply Z.ltb_ge in E
         end.

Section BodyEffects.
Context `{Host}.
Variables (a : args) (line_no : Z) (r : row) (s : state).

Let s' := snd (body a line_no r s).
Let res := fst (body a line_no r s).

Ltac start :=
  subst s' res;
  destruct (validate_row r line_no) as [[[c |] m] | e] eqn:V;
    [ | | destruct (validate_row_returns r line_no) as (? & ? & ?); congruence ];
    (let F := fresh "F" in
     pose proof V as F; apply is_valid_code in F; rewrite ?F; clear F);
    unfold body, bind, lift, modify; simpl; rewrite V.

(** The error lines printed and the counter [printed] move together, by
    one at most, and only while the budget is not used up. *)
Lemma body_printed :
  row_errors (console s') - row_errors (console s) = printed s' - printed s
  /\ (printed s' = printed s
      \/ (printed s' = printed s + 1 /\ printed s < max_print_errors a
          /\ is_valid r = false))
  /\ (res = Ret tt ->
      printed s' =
      if is_valid r then printed s
      else if printed s <? max_print_errors a then printed s + 1
           else printed s).
Proof.
  start; run; rewrite ?row_errors_app; unfold row_errors, len; simpl in *;
    ltb_facts;
    (split; [lia | split; [| intros E; first [discriminate E | lia]]]);
    first [left; lia | right; repeat split; (lia || reflexivity)].
Qed.

(** Only an invalid record reaches the samples, through [record_error]. *)
Lemma body_samples (code : str) :
  samples_of s' code =
  match validate_row r line_no with
  | Ret (Some c, m) =>
      if String.eqb c code && (len (samples_of s code) <? sample_per_type a)
      then (samples_of s code ++ [m])%list else samples_of s code
  | _ => samples_of s code
  end.
Proof.
  start.
  - rewrite <- (record_error_samples a c m s code).
    unfold samples_of. run; rewrite !record_error_err_samples; reflexivity.
  - run; reflexivity.
Qed.

(** The clean copy receives the record when it is valid, and nothing else. *)
Lemma body_clean :
  clean_fh s' = clean_fh s
  \/ (exists h h', clean_fh s = Some h /\ clean_fh s' = Some h'
                   /\ h_rows h' = (h_rows h ++ [r])%list
                   /\ is_valid r = true).
Proof.
  start; run; write_facts; simpl in *; try (left; congruence).
  all: right; eauto 10.
Qed.

Lemma body_clean_ret :
  res = Ret tt ->
  if is_valid r then
    rows_of (clean_fh s') = (rows_of (clean_fh s)
                             ++ match clean_fh s with
                                | Some _ => [r]
                                | None => []
                                end)%list
  else clean_fh s' = clean_fh s.
Proof.
  start; run; write_facts; simpl in *; intros E;
    try discriminate E; try congruence.
  all: try (rewrite app_nil_r; reflexivity).
  all: match goal with E : clean_fh s = None |- _ => rewrite E end; reflexivity.
Qed.

(** No turn of the loop closes a sink, and none opens one. *)
Lemma body_closes :
  closes_of (clean_fh s') = closes_of (clean_fh s)
  /\ closes_of (err_fh s') = closes_of (err_fh s).
Proof.
  start; run; write_facts; simpl in *; split;
    try reflexivity; try congruence.
  all: repeat match goal with
              | E : ?x = _ |- context [closes_of ?x] => rewrite E
              end; simpl; congruence.
Qed.

(** While the sinks accept rows, a turn of the loop returns. *)
Lemma body_unbounded :
  unbounded (clean_fh s) -> unbounded (err_fh s) ->
  res = Ret tt /\ unbounded (clean_fh s') /\ unbounded (err_fh s').
Proof.
  start; run; simpl in *;
    repeat match goal with
           | E : ?x = _ |- context [unbounded ?x] => rewrite E
           end;
    intros Uc Ue;
    try match goal with
        | E : handle_write ?h ?c = Raise _ |- _ =>
            let F := fresh in
            assert (F : unbounded (Some h)) by assumption;
            destruct (@handle_write_unbounded h c F) as (? & ?); congruence
        end;
    write_facts; simpl in *; intuition congruence.
Qed.

End BodyEffects.

(** ** The loop *)


Lemma extend_firstn (k : Z) (occ l : list (option str)) :
  extend k l occ =
  if len l <? k then firstn (Z.to_nat k) (l ++ occ) else l.
Proof.
  unfold extend. revert l.
  induction occ as [| m occ IH]; intros l; simpl.
  - destruct (Z.ltb_spec (len l) k) as [L | L]; [| reflexivity].
    rewrite app_nil_r. symmetry. apply firstn_all2. unfold len in L. lia.
  - rewrite IH. destruct (Z.ltb_spec (len l) k) as [L | L].
    + rewrite <- app_assoc. simpl.
      destruct (Z.ltb_spec (len (l ++ [m])) k) as [L' | L']; [reflexivity |].
      rewrite len_app in L'. unfold len in *. simpl in L'.
      rewrite firstn_app.
      replace (Z.to_nat k - length l)%nat with 1%nat by lia.
      rewrite firstn_all2 by lia. reflexivity.
    + destruct (Z.ltb_spec (len l) k); [lia | reflexivity].
Qed.

Section Stream.
Context `{Host}.
Variable a : args.

Lemma stream_cons (line_no : Z) (r : row) (rest : list row) (s : state) :
  stream a line_no (r :: rest) s =
  match fst (body a line_no r s) with
  | Ret _ => stream a (line_no + 1) rest (snd (body a line_no r s))
  | Raise e => (Raise e, snd (body a line_no r s))
  end.
Proof.
  simpl. unfold bind. destruct (body a line_no r s) as [[x | e] s1]; reflexivity.
Qed.

(** What every turn of the loop keeps, the loop keeps. *)
Lemma stream_keeps (P : state -> Prop) :
  (forall line_no r s, P s -> P (snd (body a line_no r s))) ->
  forall rows line_no s, P s -> P (snd (stream a line_no rows s)).
Proof.
  intros Hb. induction rows as [| r rest IH]; intros line_no s Ps.
  - exact Ps.
  - rewrite stream_cons. specialize (Hb line_no r s Ps).
    destruct (fst (body a line_no r s)); [apply IH |]; exact Hb.
Qed.

Lemma stream_balanced (rows : list row) (line_no : Z) (s : state) :
  balanced s -> balanced (snd (stream a line_no rows s)).
Proof.
  apply stream_keeps. intros. apply body_balanced. assumption.
Qed.

Lemma stream_total (rows : list row) (line_no : Z) (s : state) :
  total s <= total (snd (stream a line_no rows s)) <= total s + len rows
  /\ (fst (stream a line_no rows s) = Ret tt ->
      total (snd (stream a line_no rows s)) = total s + len rows).
Proof.
  revert line_no s. induction rows as [| r rest IH]; intros line_no s.
  - unfold len. simpl. split; [lia | intros _; lia].
  - rewrite stream_cons. pose proof (body_total a line_no r s) as T.
    unfold len in *. simpl length. rewrite Nat2Z.inj_succ.
    destruct (fst (body a line_no r s)).
    + specialize (IH (line_no + 1) (snd (body a line_no r s))).
      destruct IH as [B E]. split; [lia |]. intros R. specialize (E R). lia.
    + simpl. split; [lia | discriminate].
Qed.

Lemma invalid_count_cons (r : row) (rest : list row) :
  invalid_count (r :: rest) =
  (if is_valid r then 0 else 1) + invalid_count rest.
Proof.
  unfold invalid_count, len. cbn [filter].
  destruct (is_valid r); cbn [negb length]; lia.
Qed.

Lemma invalid_count_nonneg (rows : list row) : 0 <= invalid_count rows.
Proof. apply len_nonneg. Qed.

Lemma stream_printed (rows : list row) (line_no : Z) (s : state) :
  let s' := snd (stream a line_no rows s) in
  row_errors (console s') - row_errors (console s) = printed s' - printed s
  /\ printed s <= printed s' <= Z.max (printed s) (max_print_errors a)
  /\ (fst (stream a line_no rows s) = Ret tt ->
      printed s' =
      Z.max (printed s)
        (Z.min (max_print_errors a) (printed s + invalid_count rows))).
Proof.
  revert line_no s. induction rows as [| r rest IH]; intros line_no s; cbv zeta.
  - unfold invalid_count, len. simpl.
    split; [lia | split; [lia | intros _; lia]].
  - rewrite stream_cons, invalid_count_cons.
    pose proof (invalid_count_nonneg rest) as N.
    destruct (body_printed a line_no r s) as (B1 & B2 & B3).
    destruct (fst (body a line_no r s)) as [[] | e].
    + specialize (IH (line_no + 1) (snd (body a line_no r s))).
      cbv zeta in IH. destruct IH as (I1 & I2 & I3).
      specialize (B3 eq_refl).
      split; [lia | split; [lia |]].
      intros R. specialize (I3 R). rewrite I3, B3.
      destruct (is_valid r); [lia |].
      destruct (Z.ltb_spec (printed s) (max_print_errors a)); lia.
    + simpl. split; [lia | split; [lia | discriminate]].
Qed.

Lemma occurrences_cons (code : str) (line_no : Z) (r : row)
  (rest : list row) :
  occurrences code line_no (r :: rest) =
  (match validate_row r line_no with
   | Ret (Some c, m) => if String.eqb c code then [m] else []
   | _ => []
   end ++ occurrences code (line_no + 1) rest)%list.
Proof.
  simpl. destruct (validate_row r line_no) as [[[c |] m] |]; try reflexivity.
  destruct (String.eqb c code); reflexivity.
Qed.

Lemma stream_samples (code : str) (rows : list row) (line_no : Z) (s : state) :
  fst (stream a line_no rows s) = Ret tt ->
  samples_of (snd (stream a line_no rows s)) code =
  extend (sample_per_type a) (samples_of s code)
    (occurrences code line_no rows).
Proof.
  revert line_no s. induction rows as [| r rest IH]; intros line_no s.
  - reflexivity.
  - rewrite stream_cons, occurrences_cons.
    pose proof (body_samples a line_no r s code) as B.
    destruct (fst (body a line_no r s)) as [[] | e]; [| discriminate].
    intros R. rewrite (IH _ _ R), B. unfold extend. rewrite fold_left_app.
    f_equal.
    destruct (validate_row r line_no) as [[[c |] m] |]; try reflexivity.
    destruct (String.eqb c code); reflexivity.
Qed.

End Stream.


Lemma is_valid_anywhere `{Host} (r : row) :
  is_valid r = true -> valid_anywhere r.
Proof.
  unfold is_valid. intros E line_no.
  destruct (validate_row r 0) as [[[c |] m] |] eqn:V; try discriminate E.
  eapply validate_row_valid. exact V.
Qed.

Section StreamSinks.
Context `{Host}.
Variable a : args.

Lemma body_clean_valid (line_no : Z) (r : row) (s : state) :
  Forall valid_anywhere (clean_records s) ->
  Forall valid_anywhere (clean_records (snd (body a line_no r s))).
Proof.
  intros F. unfold clean_records in *.
  destruct (body_clean a line_no r s) as [E | (h & h' & E1 & E2 & R & V)].
  - rewrite E. exact F.
  - rewrite E2, R. rewrite E1 in F.
    destruct (h_rows h) as [| x rows]; simpl; [constructor |].
    rewrite Forall_app. split; [exact F |].
    constructor; [| constructor]. apply is_valid_anywhere, V.
Qed.

Lemma stream_clean_valid (rows : list row) (line_no : Z) (s : state) :
  Forall valid_anywhere (clean_records s) ->
  Forall valid_anywhere (clean_records (snd (stream a line_no rows s))).
Proof.
  apply stream_keeps with (P := fun s => Forall valid_anywhere (clean_records s)).
  intros. apply body_clean_valid. assumption.
Qed.

Lemma stream_closes (rows : list row) (line_no : Z) (s : state) :
  closes_of (clean_fh (snd (stream a line_no rows s))) = closes_of (clean_fh s)
  /\ closes_of (err_fh (snd (stream a line_no rows s))) = closes_of (err_fh s).
Proof.
  apply stream_keeps with
    (P := fun s' => closes_of (clean_fh s') = closes_of (clean_fh s)
                    /\ closes_of (err_fh s') = closes_of (err_fh s)).
  - intros l r s1 [E1 E2].
    destruct (body_closes a l r s1) as [B1 B2]. split; congruence.
  - split; reflexivity.
Qed.

Lemma closes_of_some (o o' : option handle) :
  closes_of o' = closes_of o ->
  match o with Some _ => o' <> None | None => o' = None end.
Proof. destruct o, o'; simpl; congruence. Qed.

(** The clean copy after a completed loop: the valid records, verbatim and
    in their order, after what it held. *)
Lemma stream_clean_ret (rows : list row) (line_no : Z) (s : state) :
  fst (stream a line_no rows s) = Ret tt ->
  rows_of (clean_fh (snd (stream a line_no rows s))) =
  (rows_of (clean_fh s)
   ++ match clean_fh s with
      | Some _ => filter is_valid rows
      | None => []
      end)%list.
Proof.
  revert line_no s. induction rows as [| r rest IH]; intros line_no s.
  - intros _. simpl. destruct (clean_fh s); rewrite app_nil_r; reflexivity.
  - rewrite stream_cons.
    pose proof (body_clean_ret a line_no r s) as B.
    destruct (body_closes a line_no r s) as [C _].
    apply closes_of_some in C.
    destruct (fst (body a line_no r s)) as [[] | e]; [| discriminate].
    intros R. rewrite (IH _ _ R). specialize (B eq_refl). cbn [filter].
    destruct (is_valid r).
    + rewrite B. destruct (clean_fh s).
      * destruct (clean_fh (snd (body a line_no r s))); [| contradiction].
        rewrite <- app_assoc. reflexivity.
      * rewrite C. rewrite !app_nil_r. reflexivity.
    + rewrite B. reflexivity.
Qed.

Lemma stream_unbounded (rows : list row) (line_no : Z) (s : state) :
  unbounded (clean_fh s) -> unbounded (err_fh s) ->
  fst (stream a line_no rows s) = Ret tt
  /\ unbounded (clean_fh (snd (stream a line_no rows s)))
  /\ unbounded (err_fh (snd (stream a line_no rows s))).
Proof.
  revert line_no s. induction rows as [| r rest IH]; intros line_no s Uc Ue.
  - simpl. auto.
  - rewrite stream_cons.
    destruct (body_unbounded a line_no r s Uc Ue) as (R & Uc' & Ue').
    rewrite R. apply IH; assumption.
Qed.

End StreamSinks.

(** ** The phases of [validate_csv] *)



Lemma steady_ret {A} (P : state -> Prop) (x : A) : steady P (ret x).
Proof. intros s Ps. split; [exists x; reflexivity | exact Ps]. Qed.

Lemma steady_gets {A} (P : state -> Prop) (f : state -> A) : steady P (gets f).
Proof. intros s Ps. split; [eexists; reflexivity | exact Ps]. Qed.

Lemma steady_bind {A B} (P : state -> Prop) (m : M A) (k : A -> M B) :
  steady P m -> (forall x, steady P (k x)) -> steady P (bind m k).
Proof.
  intros Hm Hk s Ps. destruct (Hm s Ps) as [[x E] Ps']. unfold bind.
  destruct (m s) as [r s1]. simpl in *. subst r. apply Hk. exact Ps'.
Qed.

Lemma steady_when (P : state -> Prop) (b : bool) (m : M unit) :
  steady P m -> steady P (when b m).
Proof. intros Hm. destruct b; [exact Hm | apply steady_ret]. Qed.

Lemma steady_for_each {A} (P : state -> Prop) (l : list A) (f : A -> M unit) :
  (forall x, steady P (f x)) -> steady P (for_each l f).
Proof.
  intros Hf. induction l as [| x l IH]; simpl.
  - apply steady_ret.
  - apply steady_bind; [apply Hf | intros _; exact IH].
Qed.

Lemma steady_print (P : state -> Prop) (e : event) :
  quiet P -> is_row_error e = false -> steady P (print e).
Proof.
  intros HP He s Ps. split; [exists tt; reflexivity |].
  apply HP; assumption.
Qed.

Lemma steady_triple {A} (P : state -> Prop) (m : M A)
  (Q : result A -> state -> Prop) :
  steady P m -> (forall x s, P s -> Q (Ret x) s) -> triple P m Q.
Proof.
  intros Hm HQ s Ps. destruct (Hm s Ps) as [[x E] Ps'].
  rewrite E. apply HQ. exact Ps'.
Qed.

Lemma report_steady `{Host} (P : state -> Prop) (a : args) :
  quiet P -> steady P (report a).
Proof.
  intros HP. unfold report.
  repeat (apply steady_bind; [| intros ?]);
    try (apply steady_print; [exact HP | reflexivity]);
    try apply steady_gets;
    try (apply steady_when; apply steady_print; [exact HP | reflexivity]).
  destruct (err_counts _).
  - apply steady_print; [exact HP | reflexivity].
  - repeat (apply steady_bind; [| intros ?]);
      try (apply steady_print; [exact HP | reflexivity]).
    + apply steady_for_each. intros [code cnt].
      apply steady_print; [exact HP | reflexivity].
    + apply steady_for_each. intros [code samples].
      apply steady_bind; [apply steady_print; [exact HP | reflexivity] |].
      intros _. apply steady_for_each. intros m.
      apply steady_print; [exact HP | reflexivity].
Qed.

Lemma triple_bind_steady {A B} (P : state -> Prop) (m : M A) (k : A -> M B)
  (Q : result B -> state -> Prop) :
  steady P m -> (forall x, triple P (k x) Q) -> triple P (bind m k) Q.
Proof.
  intros Hm Hk. apply triple_bind with (R := fun _ => P); [| exact Hk].
  intros s Ps. destruct (Hm s Ps) as [[x E] Ps']. rewrite E. exact Ps'.
Qed.

Lemma triple_bind_hoare {A B} (P R : state -> Prop) (m : M A) (k : A -> M B)
  (Q : result B -> state -> Prop) :
  hoare P m R -> (forall x, triple R (k x) Q) ->
  (forall e s, R s -> Q (Raise e) s) ->
  triple P (bind m k) Q.
Proof.
  intros Hm Hk HQ. apply triple_bind with (R := fun _ => R); [| exact Hk].
  intros s Ps. specialize (Hm s Ps). simpl in Hm.
  destruct (fst (m s)); [exact Hm | apply HQ, Hm].
Qed.

(** ** Closing the sinks *)

Lemma handle_close_closed (h : handle) :
  h_closes (snd (handle_close h)) = S (h_closes h)
  /\ h_rows (snd (handle_close h)) = h_rows h
  /\ h_gzip (snd (handle_close h)) = h_gzip h.
Proof.
  unfold handle_close.
  destruct (h_closes h); [destruct (take _ _) |]; simpl; auto.
Qed.

Lemma handle_close_unbounded (h : handle) :
  h_room h = None -> fst (handle_close h) = Ret tt.
Proof.
  unfold handle_close, take. intros ->. destruct (h_closes h); reflexivity.
Qed.

(** Lines 180-183 touch nothing but the two file objects, and leave the
    rows written to them as they are. *)
Lemma close_sinks_frame (s : state) :
  total (snd (close_sinks s)) = total s
  /\ valid (snd (close_sinks s)) = valid s
  /\ err_counts (snd (close_sinks s)) = err_counts s
  /\ err_samples (snd (close_sinks s)) = err_samples s
  /\ printed (snd (close_sinks s)) = printed s
  /\ console (snd (close_sinks s)) = console s
  /\ rows_of (clean_fh (snd (close_sinks s))) = rows_of (clean_fh s)
  /\ rows_of (err_fh (snd (close_sinks s))) = rows_of (err_fh s)
  /\ clean_records (snd (close_sinks s)) = clean_records s.
Proof.
  unfold clean_records, close_sinks, close_clean, close_errors, bind.
  destruct (clean_fh s) as [hc |] eqn:C;
    [destruct (handle_close_closed hc) as (_ & Rc & _);
     destruct (fst (handle_close hc)) |];
    simpl; rewrite ?C; simpl;
    (destruct (err_fh s) as [he |] eqn:E;
     [destruct (handle_close_closed he) as (_ & Re & _) |]);
    simpl; rewrite ?C, ?E; simpl; repeat split; congruence.
Qed.

Lemma close_sinks_unbounded (s : state) :
  unbounded (clean_fh s) -> unbounded (err_fh s) ->
  fst (close_sinks s) = Ret tt.
Proof.
  unfold unbounded, close_sinks, close_clean, close_errors, bind.
  destruct (clean_fh s) as [hc |] eqn:C.
  - intros [Uc _]. rewrite (handle_close_unbounded hc Uc). simpl.
    destruct (err_fh s) as [he |] eqn:E; [| reflexivity].
    intros [Ue _]. exact (handle_close_unbounded he Ue).
  - intros _. destruct (err_fh s) as [he |] eqn:E; [| reflexivity].
    intros [Ue _]. exact (handle_close_unbounded he Ue).
Qed.

(** When line 181 returns and line 183 raises, both sinks have received
    their [close()]. *)
Lemma close_sinks_errors_raises (s : state) (h : handle) (e : exn) :
  (forall hc, clean_fh s = Some hc -> fst (handle_close hc) = Ret tt) ->
  err_fh s = Some h -> fst (handle_close h) = Raise e ->
  fst (close_sinks s) = Raise e
  /\ closes_of (clean_fh (snd (close_sinks s)))
     = option_map S (closes_of (clean_fh s))
  /\ closes_of (err_fh (snd (close_sinks s))) = Some (S (h_closes h)).
Proof.
  intros C E K. unfold closes_of, close_sinks, close_clean, close_errors, bind.
  destruct (handle_close_closed h) as (Kh & _ & _).
  destruct (clean_fh s) as [hc |] eqn:Fc.
  - destruct (handle_close_closed hc) as (Kc & _ & _).
    rewrite (C hc eq_refl). simpl. rewrite E, K. simpl.
    rewrite Kc, Kh. repeat split; reflexivity.
  - rewrite E, K. simpl. rewrite ?Fc. simpl. rewrite Kh.
    repeat split; reflexivity.
Qed.

(** When lines 180-183 return, each sink has received one more [close()]. *)
Lemma close_sinks_ret (s : state) :
  fst (close_sinks s) = Ret tt ->
  closes_of (clean_fh (snd (close_sinks s)))
  = option_map S (closes_of (clean_fh s))
  /\ closes_of (err_fh (snd (close_sinks s)))
     = option_map S (closes_of (err_fh s)).
Proof.
  unfold closes_of, close_sinks, close_clean, close_errors, bind.
  destruct (clean_fh s) as [hc |] eqn:C;
    [destruct (handle_close_closed hc) as (Kc & _ & _);
     destruct (fst (handle_close hc)) |];
    simpl; rewrite ?C; simpl; try discriminate;
    (destruct (err_fh s) as [he |] eqn:E;
     [destruct (handle_close_closed he) as (Ke & _ & _) |]);
    simpl; rewrite ?C, ?E; simpl; intros _; split; congruence.
Qed.

(** When line 181 raises, line 183 is not reached: the error log is left as
    it was. *)
Lemma close_sinks_clean_raises (s : state) (h : handle) (e : exn) :
  clean_fh s = Some h -> fst (handle_close h) = Raise e ->
  close_sinks s = (Raise e, set_clean_fh (Some (snd (handle_close h))) s).
Proof.
  intros C R. unfold close_sinks, close_clean, bind. rewrite C, R. reflexivity.
Qed.

Section Run.
Context `{Host}.
Variables (a : args) (w : world).

(** How a property of the final state of [validate_csv] follows from the
    phases: [P0] holds until the sinks are opened, [P1] while the sinks are
    open, [P2] once they are closed. *)
Lemma validate_csv_triple (P0 P1 P2 : state -> Prop)
  (Q : result unit -> state -> Prop) :
  quiet P0 -> quiet P2 ->
  (forall eh, hoare P0 (init_pass a w eh) P1) ->
  (forall rows, hoare P1 (stream a 2 rows) P1) ->
  triple P1 close_sinks (fun r s => match r with
                                    | Ret _ => P2 s
                                    | Raise e => Q (Raise e) s
                                    end) ->
  (forall r s, P0 s -> Q r s) ->
  (forall e s, P1 s -> Q (Raise e) s) ->
  (forall s, P2 s -> Q (Ret tt) s) ->
  triple P0 (validate_csv a w) Q.
Proof.
  intros Q0 Q2 Hinit Hstream Hclose HQ0 HQ1 HQ2.
  assert (Pr0 : forall e, is_row_error e = false -> steady P0 (print e))
    by (intros; apply steady_print; assumption).
  unfold validate_csv. cbv zeta.
  destruct (truthy _).
  - apply steady_triple; [| intros; apply HQ0; assumption].
    apply steady_bind; [| intros _]; apply Pr0; reflexivity.
  - apply triple_bind_steady; [apply Pr0; reflexivity | intros _].
    apply triple_bind_hoare with (R := P0);
      [apply hoare_lift | intros eh | intros; apply HQ0; assumption].
    apply triple_bind_steady; [apply Pr0; reflexivity | intros _].
    apply triple_bind_hoare with (R := P0);
      [apply hoare_lift | intros header | intros; apply HQ0; assumption].
    destruct (header_differs header eh).
    + apply steady_triple; [| intros; apply HQ0; assumption].
      repeat (apply steady_bind; [| intros _]); apply Pr0; reflexivity.
    + apply triple_bind_steady; [apply Pr0; reflexivity | intros _].
      apply triple_bind with (R := fun _ => P2).
      * unfold pass.
        apply triple_bind_hoare with (R := P1);
          [apply Hinit | intros _ | exact HQ1].
        apply triple_bind_hoare with (R := P1);
          [apply hoare_lift | intros rows | exact HQ1].
        apply triple_bind_hoare with (R := P1);
          [apply Hstream | intros _ | exact HQ1].
        intros s Ps. apply (Hclose s Ps).
      * intros _. apply steady_triple; [apply report_steady; exact Q2 |].
        intros [] s Ps. apply HQ2. exact Ps.
Qed.

End Run.

(** ** Opening the sinks *)

Ltac run_init :=
  unfold init_pass, open_clean, open_errors, open_errors_writer, write_clean,
    write_errors, when, bind, modify, ret;
  simpl;
  repeat (break_match; simpl);
  write_facts; simpl in *.

Section Init.
Context `{Host}.
Variables (a : args) (w : world) (eh : row) (s : state).

Let s' := snd (init_pass a w eh s).

Lemma init_pass_counters :
  total s' = 0 /\ valid s' = 0 /\ err_counts s' = [] /\ err_samples s' = [].
Proof. subst s'. run_init; auto. Qed.

Lemma init_pass_console : console s' = console s.
Proof. subst s'. run_init; reflexivity. Qed.

Lemma init_pass_printed :
  printed s' = printed s \/ printed s' = 0.
Proof. subst s'. run_init; auto. Qed.

(** Each sink the run asked for is open, not closed, and holds at most its
    header row. *)
Lemma init_pass_sinks :
  err_fh s = None ->
  sinks_closed 0 s'
  /\ (rows_of (clean_fh s') = [] \/ rows_of (clean_fh s') = [eh]).
Proof.
  intros E0. subst s'. unfold sinks_closed.
  run_init; rewrite ?E0;
    (split; [split; intros ? E; inversion E; subst; simpl; congruence |]);
    auto; right; congruence.
Qed.

(** When the opening returns, each sink asked for holds exactly its header
    row, and a sink not asked for does not exist. *)
Lemma init_pass_ret :
  fst (init_pass a w eh s) = Ret tt ->
  option_map h_rows (clean_fh s') =
    (if truthy (out_clean a) then Some [eh] else None)
  /\ option_map h_rows (err_fh s') =
    (if truthy (errors_out a) then
       Some [["line_no"; "error_code"; "message"; "col0"; "col1"; "col2";
              "raw_len"]]
     else None)
  /\ closes_of (clean_fh s') = (if truthy (out_clean a) then Some 0%nat else None)
  /\ closes_of (err_fh s') = (if truthy (errors_out a) then Some 0%nat else None).
Proof.
  subst s'. unfold closes_of.
  run_init; intros E; try discriminate E; repeat split;
    first [reflexivity | f_equal; assumption].
Qed.

Lemma init_pass_unbounded :
  (forall p, sink_room w p = None) ->
  fst (init_pass a w eh s) = Ret tt
  /\ unbounded (clean_fh s') /\ unbounded (err_fh s').
Proof.
  intros U. subst s'.
  run_init; rewrite ?U in *;
    try match goal with
        | E : handle_write ?h ?c = Raise _ |- _ =>
            destruct (@handle_write_unbounded h c (conj eq_refl eq_refl))
              as (? & ?); congruence
        end;
    repeat split; auto.
Qed.

End Init.

(** ** Outcomes of a run *)

Lemma bind_ret_inv {A B} (m : M A) (k : A -> M B) (s : state) (y : B) :
  fst (bind m k s) = Ret y ->
  exists x, fst (m s) = Ret x /\ bind m k s = k x (snd (m s)).
Proof.
  unfold bind. destruct (m s) as [[x | e] s1]; simpl.
  - intros _. exists x. split; reflexivity.
  - discriminate.
Qed.

Lemma bind_raise {A B} (m : M A) (k : A -> M B) (s : state) (e : exn) :
  fst (m s) = Raise e -> bind m k s = (Raise e, snd (m s)).
Proof.
  unfold bind. destruct (m s) as [r s1]. simpl. intros ->. reflexivity.
Qed.

Lemma bind_ret {A B} (m : M A) (k : A -> M B) (s : state) (x : A) :
  fst (m s) = Ret x -> bind m k s = k x (snd (m s)).
Proof.
  unfold bind. destruct (m s) as [r s1]. simpl. intros ->. reflexivity.
Qed.



Section Outcomes.
Context `{Host}.
Variables (a : args) (w : world).

Lemma check_fails (content : bytes) (start : Z) (reason : str) :
  utf8_decode content = DecodeError start reason ->
  truthy (check_utf8_streaming content) = true.
Proof. unfold check_utf8_streaming. intros ->. reflexivity. Qed.

Lemma check_passes (content : bytes) (t : str) :
  utf8_decode content = Text t ->
  truthy (check_utf8_streaming content) = false.
Proof. unfold check_utf8_streaming. intros ->. reflexivity. Qed.

Lemma validate_csv_encoding (start : Z) (reason : str) :
  utf8_decode (file_bytes w (big_csv a)) = DecodeError start reason ->
  validate_csv a w boot =
  (Ret tt,
   set_console
     [EncodingBad ("UnicodeDecodeError @ byte " ++ dec start ++ ": " ++ reason);
      EncodingHint] boot).
Proof.
  intros E. unfold validate_csv. cbv zeta. rewrite (check_fails _ _ _ E).
  unfold check_utf8_streaming. rewrite E. reflexivity.
Qed.

Lemma validate_csv_mismatch (t : str) (eh : row) (h : option row) :
  utf8_decode (file_bytes w (big_csv a)) = Text t ->
  expected_header_of a w = Ret eh ->
  observed_header a w = Ret h ->
  h <> Some eh ->
  validate_csv a w boot =
  (Ret tt,
   set_console
     [EncodingOk; ExpectedHeader eh; HeaderMismatch; HeaderInFile h;
      HeaderExpected eh] boot).
Proof.
  intros E X O D. apply header_differs_iff in D.
  unfold validate_csv. cbv zeta. rewrite (check_passes _ _ E).
  unfold bind, lift, print, modify. simpl. rewrite X, O, D. reflexivity.
Qed.

Lemma validate_csv_matched (t : str) (eh : row) :
  utf8_decode (file_bytes w (big_csv a)) = Text t ->
  expected_header_of a w = Ret eh ->
  observed_header a w = Ret (Some eh) ->
  validate_csv a w boot =
  bind (pass a w eh) (fun _ => report a)
    (set_console [EncodingOk; ExpectedHeader eh; HeaderOk] boot).
Proof.
  intros E X O.
  assert (D : header_differs (Some eh) eh = false).
  { destruct (header_differs (Some eh) eh) eqn:D; [| reflexivity].
    apply header_differs_iff in D. contradiction. }
  unfold validate_csv. cbv zeta. rewrite (check_passes _ _ E).
  unfold bind at 1 2 3 4 5, lift, print, modify. simpl. rewrite X, O, D.
  reflexivity.
Qed.

Lemma observed_data_rows (h : option row) :
  observed_header a w = Ret h -> exists rows, data_rows a w = Ret rows.
Proof.
  unfold observed_header, data_rows, rmap, rbind.
  destruct (open_text_utf8_strict _); [eauto | discriminate].
Qed.

Lemma report_returns (s : state) : fst (report a s) = Ret tt.
Proof.
  destruct (report_steady (fun _ => True) a) with (s := s) as [[[] E] _];
    [intros ? ? ? ?; exact I | exact I | exact E].
Qed.

Lemma report_sinks (s : state) :
  clean_fh (snd (report a s)) = clean_fh s
  /\ err_fh (snd (report a s)) = err_fh s.
Proof.
  destruct (report_steady
              (fun s' => clean_fh s' = clean_fh s /\ err_fh s' = err_fh s) a)
    with (s := s) as [_ E].
  - intros ? ? ? P. exact P.
  - split; reflexivity.
  - exact E.
Qed.

(** With sinks that never fill, a run whose files decode and whose header
    matches returns, whatever its records are. *)
Lemma validate_csv_returns (t : str) (eh : row) :
  utf8_decode (file_bytes w (big_csv a)) = Text t ->
  expected_header_of a w = Ret eh ->
  observed_header a w = Ret (Some eh) ->
  (forall p, sink_room w p = None) ->
  fst (validate_csv a w boot) = Ret tt.
Proof.
  intros E X O U. rewrite (validate_csv_matched t eh E X O).
  destruct (observed_data_rows _ O) as [rows D].
  set (s0 := set_console _ boot).
  destruct (init_pass_unbounded a w eh s0 U) as (I & Uc & Ue).
  destruct (stream_unbounded a rows 2 _ Uc Ue) as (S & Uc' & Ue').
  assert (P : fst (pass a w eh s0) = Ret tt).
  { unfold pass. rewrite (bind_ret _ _ _ _ I). rewrite D.
    unfold bind at 1, lift. simpl. rewrite (bind_ret _ _ _ _ S).
    apply close_sinks_unbounded; assumption. }
  rewrite (bind_ret _ _ _ _ P). apply report_returns.
Qed.

(** After a run that went through the pass and returned, each sink asked
    for has been closed exactly once. *)
Lemma validate_csv_closed_once (t : str) (eh : row) :
  utf8_decode (file_bytes w (big_csv a)) = Text t ->
  expected_header_of a w = Ret eh ->
  observed_header a w = Ret (Some eh) ->
  fst (validate_csv a w boot) = Ret tt ->
  closes_of (clean_fh (snd (validate_csv a w boot))) =
    (if truthy (out_clean a) then Some 1%nat else None)
  /\ closes_of (err_fh (snd (validate_csv a w boot))) =
    (if truthy (errors_out a) then Some 1%nat else None).
Proof.
  intros E X O. rewrite (validate_csv_matched t eh E X O).
  set (s0 := set_console _ boot). intros R.
  destruct (bind_ret_inv _ _ _ _ R) as ([] & P & ->).
  destruct (report_sinks (snd (pass a w eh s0))) as [-> ->].
  assert (Q : exists rows,
             fst (init_pass a w eh s0) = Ret tt
             /\ pass a w eh s0 =
                close_sinks (snd (stream a 2 rows (snd (init_pass a w eh s0))))).
  { revert P. unfold pass. intros P.
    destruct (bind_ret_inv _ _ _ _ P) as ([] & I & F). rewrite F in *.
    destruct (data_rows a w) as [rows | e]; [| discriminate P].
    exists rows. split; [exact I |].
    unfold bind at 1, lift. simpl.
    unfold bind at 1, lift in P. simpl in P.
    destruct (bind_ret_inv _ _ _ _ P) as ([] & S & G). exact G. }
  destruct Q as (rows & I & Q). rewrite Q in *.
  destruct (close_sinks_ret _ P) as [Kc Ke]. rewrite Kc, Ke.
  destruct (init_pass_ret a w eh s0 I) as (_ & _ & Cc & Ce).
  destruct (stream_closes a rows 2 (snd (init_pass a w eh s0))) as [Sc Se].
  rewrite Sc, Se, Cc, Ce.
  destruct (truthy (out_clean a)), (truthy (errors_out a));
    split; reflexivity.
Qed.

Lemma pass_loop (eh : row) (rows : list row) (s0 : state) :
  data_rows a w = Ret rows ->
  fst (init_pass a w eh s0) = Ret tt ->
  pass a w eh s0
  = bind (stream a 2 rows) (fun _ => close_sinks)
      (snd (init_pass a w eh s0)).
Proof.
  intros D I. unfold pass. rewrite (bind_ret _ _ _ _ I), D. reflexivity.
Qed.

(** The sinks at the end of the loop of a run: open, whether the loop
    returned or raised. *)
Lemma loop_of_closes (eh : row) (rows : list row) :
  fst (init_pass a w eh (pass_entry eh)) = Ret tt ->
  closes_of (clean_fh (snd (loop_of a w eh rows)))
  = (if truthy (out_clean a) then Some 0%nat else None)
  /\ closes_of (err_fh (snd (loop_of a w eh rows)))
     = (if truthy (errors_out a) then Some 0%nat else None).
Proof.
  intros I. unfold loop_of.
  destruct (init_pass_ret a w eh (pass_entry eh) I) as (_ & _ & Cc & Ce).
  destruct (stream_closes a rows 2 (snd (init_pass a w eh (pass_entry eh))))
    as [Sc Se].
  rewrite Sc, Se, Cc, Ce. split; reflexivity.
Qed.

(** An exception of the loop ends the run in the state the loop left. *)
Lemma validate_csv_loop_raises (t : str) (eh : row) (rows : list row)
  (e : exn) :
  utf8_decode (file_bytes w (big_csv a)) = Text t ->
  expected_header_of a w = Ret eh ->
  observed_header a w = Ret (Some eh) ->
  data_rows a w = Ret rows ->
  fst (init_pass a w eh (pass_entry eh)) = Ret tt ->
  fst (loop_of a w eh rows) = Raise e ->
  validate_csv a w boot = (Raise e, snd (loop_of a w eh rows)).
Proof.
  intros E X O D I L. rewrite (validate_csv_matched t eh E X O).
  fold (pass_entry eh).
  assert (P : pass a w eh (pass_entry eh)
              = (Raise e, snd (loop_of a w eh rows))).
  { rewrite (pass_loop eh rows _ D I).
    exact (bind_raise (stream a 2 rows) _ _ e L). }
  unfold bind. rewrite P. reflexivity.
Qed.

(** When the loop returns and a [close()] of lines 180-183 raises, the run
    ends in the state in which these lines stopped. *)
Lemma validate_csv_close_raises (t : str) (eh : row) (rows : list row)
  (e : exn) :
  utf8_decode (file_bytes w (big_csv a)) = Text t ->
  expected_header_of a w = Ret eh ->
  observed_header a w = Ret (Some eh) ->
  data_rows a w = Ret rows ->
  fst (init_pass a w eh (pass_entry eh)) = Ret tt ->
  fst (loop_of a w eh rows) = Ret tt ->
  fst (close_sinks (snd (loop_of a w eh rows))) = Raise e ->
  validate_csv a w boot
  = (Raise e, snd (close_sinks (snd (loop_of a w eh rows)))).
Proof.
  intros E X O D I L K. rewrite (validate_csv_matched t eh E X O).
  fold (pass_entry eh).
  assert (P : pass a w eh (pass_entry eh)
              = close_sinks (snd (loop_of a w eh rows))).
  { rewrite (pass_loop eh rows _ D I).
    rewrite (bind_ret (stream a 2 rows) _ _ tt L). reflexivity. }
  unfold bind. rewrite P.
  destruct (close_sinks (snd (loop_of a w eh rows))) as [r s1].
  simpl in K. subst r. reflexivity.
Qed.

End Outcomes.

(** ** Properties of the final state *)

Section Final.
Context `{Host}.
Variables (a : args) (w : world).

Lemma sinks_closed_in_turn (s : state) :
  sinks_closed 0 s -> closed_in_turn s.
Proof.
  unfold sinks_closed, closed_in_turn. intros [C E].
  split; [| split].
  - intros h F. rewrite (C h F). lia.
  - intros h F. rewrite (E h F). lia.
  - intros hc he Fc Fe. rewrite (C hc Fc), (E he Fe). lia.
Qed.

(** Lines 180-183 from open sinks: both closed once when they return; when
    one of the two [close()] raises, the other sink is closed if it came
    first and left open if it comes after. *)
Lemma close_sinks_turn (s : state) :
  sinks_closed 0 s ->
  match fst (close_sinks s) with
  | Ret _ => sinks_closed 1 (snd (close_sinks s))
  | Raise _ => closed_in_turn (snd (close_sinks s))
  end.
Proof.
  unfold sinks_closed, closed_in_turn, close_sinks, close_clean, close_errors,
    bind.
  intros [C E].
  destruct (clean_fh s) as [hc |] eqn:Fc;
    [destruct (handle_close_closed hc) as (Kc & _ & _);
     rewrite (C hc eq_refl) in Kc;
     destruct (fst (handle_close hc)) |];
    simpl; rewrite ?Fc; simpl;
    (destruct (err_fh s) as [he |] eqn:Fe;
     [destruct (handle_close_closed he) as (Ke & _ & _);
      rewrite (E he eq_refl) in Ke;
      destruct (fst (handle_close he)) |]);
    simpl; rewrite ?Fc, ?Fe; simpl;
    repeat split; intros;
    repeat match goal with
           | F : Some _ = Some _ |- _ => injection F as <-
           | F : None = Some _ |- _ => discriminate F
           end;
    try (specialize (C _ eq_refl)); try (specialize (E _ eq_refl)); lia.
Qed.

Lemma validate_csv_balanced : balanced (snd (validate_csv a w boot)).
Proof.
  apply (validate_csv_triple a w
           (fun s => total s = 0 /\ valid s = 0 /\ err_counts s = [])
           balanced balanced (fun _ => balanced)).
  - intros e s _ P. exact P.
  - intros e s _ P. exact P.
  - intros eh s _.
    destruct (init_pass_counters a w eh s) as (T & V & C & _).
    unfold balanced. simpl. rewrite T, V, C. split; reflexivity.
  - intros rows s B. apply stream_balanced. exact B.
  - intros s B.
    destruct (close_sinks_frame s) as (T & V & C & _).
    assert (B' : balanced (snd (close_sinks s)))
      by (unfold balanced in *; rewrite T, V, C; exact B).
    destruct (fst (close_sinks s)); exact B'.
  - intros r s (T & V & C). unfold balanced. rewrite T, V, C.
    split; reflexivity.
  - intros e s B. exact B.
  - intros s B. exact B.
  - repeat split.
Qed.

Lemma validate_csv_print_budget :
  row_errors (console (snd (validate_csv a w boot)))
  <= Z.max 0 (max_print_errors a).
Proof.
  apply (validate_csv_triple a w
           (fun s => row_errors (console s) = 0 /\ printed s = 0)
           (fun s => row_errors (console s) = printed s
                     /\ printed s <= Z.max 0 (max_print_errors a))
           (fun s => row_errors (console s) <= Z.max 0 (max_print_errors a))
           (fun _ s => row_errors (console s) <= Z.max 0 (max_print_errors a))).
  - intros e s E [R P]. simpl. rewrite row_errors_app, R.
    unfold row_errors. simpl. rewrite E. split; [reflexivity | exact P].
  - intros e s E R. simpl. rewrite row_errors_app.
    unfold row_errors at 2. simpl. rewrite E. simpl. unfold len. simpl. lia.
  - intros eh s [R P]. simpl. rewrite init_pass_console, R.
    destruct (init_pass_printed a w eh s) as [E | E]; rewrite E; lia.
  - intros rows s [R P]. simpl.
    destruct (stream_printed a rows 2 s) as (S1 & S2 & _). lia.
  - intros s [R P].
    destruct (close_sinks_frame s) as (_ & _ & _ & _ & _ & Co & _).
    assert (B : row_errors (console (snd (close_sinks s)))
                <= Z.max 0 (max_print_errors a)) by (rewrite Co; lia).
    destruct (fst (close_sinks s)); exact B.
  - intros r s [R P]. lia.
  - intros e s [R P]. lia.
  - intros s R. exact R.
  - split; reflexivity.
Qed.

Lemma validate_csv_clean_valid :
  Forall valid_anywhere (clean_records (snd (validate_csv a w boot))).
Proof.
  apply (validate_csv_triple a w
           (fun s => clean_fh s = None /\ err_fh s = None)
           (fun s => Forall valid_anywhere (clean_records s))
           (fun s => Forall valid_anywhere (clean_records s))
           (fun _ s => Forall valid_anywhere (clean_records s))).
  - intros e s _ P. exact P.
  - intros e s _ P. exact P.
  - intros eh s [_ E]. simpl.
    destruct (init_pass_sinks a w eh s E) as [_ R].
    unfold clean_records.
    destruct (clean_fh (snd (init_pass a w eh s))) as [h |]; [| constructor].
    simpl in R. destruct R as [-> | ->]; constructor.
  - intros rows s F. apply stream_clean_valid. exact F.
  - intros s F.
    destruct (close_sinks_frame s) as (_ & _ & _ & _ & _ & _ & _ & _ & Cr).
    rewrite <- Cr in F. destruct (fst (close_sinks s)); exact F.
  - intros r s [E _]. unfold clean_records. rewrite E. constructor.
  - intros e s F. exact F.
  - intros s F. exact F.
  - split; reflexivity.
Qed.

(** The sinks have been closed once when the run returns; when an
    exception leaves it, none has been closed twice and none out of turn. *)
Lemma validate_csv_closes :
  match fst (validate_csv a w boot) with
  | Ret _ => sinks_closed 1 (snd (validate_csv a w boot))
  | Raise _ => closed_in_turn (snd (validate_csv a w boot))
  end.
Proof.
  apply (validate_csv_triple a w
           (fun s => clean_fh s = None /\ err_fh s = None)
           (sinks_closed 0) (sinks_closed 1)
           (fun r s => match r with
                       | Ret _ => sinks_closed 1 s
                       | Raise _ => closed_in_turn s
                       end)).
  - intros e s _ P. exact P.
  - intros e s _ P. exact P.
  - intros eh s [_ E]. simpl. apply init_pass_sinks. exact E.
  - intros rows s [C E]. simpl.
    destruct (stream_closes a rows 2 s) as [Sc Se].
    unfold sinks_closed, closes_of in *. split; intros h F.
    + rewrite F in Sc. destruct (clean_fh s) as [h0 |]; [| discriminate].
      simpl in Sc. injection Sc as ->. apply C. reflexivity.
    + rewrite F in Se. destruct (err_fh s) as [h0 |]; [| discriminate].
      simpl in Se. injection Se as ->. apply E. reflexivity.
  - intros s C. apply close_sinks_turn. exact C.
  - intros r s [C E].
    assert (Z0 : sinks_closed 0 s)
      by (unfold sinks_closed; rewrite C, E; split; discriminate).
    destruct r; [| apply sinks_closed_in_turn; exact Z0].
    unfold sinks_closed. rewrite C, E. split; discriminate.
  - intros e s C. apply sinks_closed_in_turn. exact C.
  - intros s C. exact C.
  - split; reflexivity.
Qed.

End Final.

(** * The properties of the specification *)

(** C2. After every prefix of the data records, whether the loop returned
    or a sink raised, [valid] plus the per-kind counts (summed over the five
    kinds, and equally over the values of [err_counts]) equals [total];
    [total] is the number of records read when the prefix went through.  The
    same balance holds in the final state of every run of [validate_csv]. *)
Theorem counters_balance `{Host} (a : args) (w : world) (rows : list row)
  (n : nat) (cfh efh : option handle) (con : list event) :
  (balanced (snd (stream a 2 (firstn n rows) (at_entry cfh efh con)))
   /\ total (snd (stream a 2 (firstn n rows) (at_entry cfh efh con)))
      <= len (firstn n rows)
   /\ (fst (stream a 2 (firstn n rows) (at_entry cfh efh con)) = Ret tt ->
       total (snd (stream a 2 (firstn n rows) (at_entry cfh efh con)))
       = len (firstn n rows)))
  /\ balanced (snd (validate_csv a w boot)).
Proof.
  split; [| apply validate_csv_balanced].
  pose proof (stream_total a (firstn n rows) 2 (at_entry cfh efh con)) as [B E].
  simpl in B, E. split; [| split; [lia | exact E]].
  apply stream_balanced. split; reflexivity.
Qed.


(** C5. With a budget [max_print_errors >= 0], the number of per-record
    error lines on the console never exceeds it: in the final state of every
    run, and after every stretch of the loop; when the loop goes through, it
    is the smaller of the budget and the number of invalid records, whatever
    their kinds and whatever the sample size. *)
Theorem print_budget `{Host} (a : args) (w : world) (rows : list row)
  (line_no : Z) (cfh efh : option handle) (con : list event) :
  0 <= max_print_errors a ->
  row_errors (console (snd (validate_csv a w boot))) <= max_print_errors a
  /\ row_errors (console (snd (stream a line_no rows (at_entry cfh efh con))))
     - row_errors con <= max_print_errors a
  /\ (fst (stream a line_no rows (at_entry cfh efh con)) = Ret tt ->
      row_errors (console (snd (stream a line_no rows (at_entry cfh efh con))))
      - row_errors con
      = Z.min (max_print_errors a) (invalid_count rows)).
Proof.
  intros B. split.
  - pose proof (validate_csv_print_budget a w). lia.
  - destruct (stream_printed a rows line_no (at_entry cfh efh con))
      as (S1 & S2 & S3).
    simpl in S1, S2, S3. pose proof (invalid_count_nonneg rows).
    split; [lia |]. intros R. specialize (S3 R). lia.
Qed.

(** C6. Every data record of the clean copy, in the final state of every
    run, is one that [validate_row] accepts at every line number; and a loop
    that goes through appends to the clean copy exactly the valid records,
    verbatim and in their order. *)
Theorem clean_copy_revalidates `{Host} (a : args) (w : world)
  (rows : list row) (line_no : Z) (h : handle) (efh : option handle)
  (con : list event) :
  Forall valid_anywhere (clean_records (snd (validate_csv a w boot)))
  /\ (fst (stream a line_no rows (at_entry (Some h) efh con)) = Ret tt ->
      rows_of (clean_fh (snd (stream a line_no rows
                                (at_entry (Some h) efh con))))
      = (h_rows h ++ filter is_valid rows)%list).
Proof.
  split.
  - apply validate_csv_clean_valid.
  - intros R. rewrite (stream_clean_ret a rows line_no _ R). reflexivity.
Qed.

(** C3, as amended. When the encoding check passes and the observed header
    differs from the expected header, [validate_csv] returns at once: the
    console holds the five lines of the header check and nothing else, so no
    record is validated and no report, hence no total, is printed; the
    counters are untouched and neither sink has been opened, so no row, not
    even a header row, is written. *)
Theorem header_mismatch_aborts `{Host} (a : args) (w : world) (t : str)
  (eh : row) (h : option row) :
  utf8_decode (file_bytes w (big_csv a)) = Text t ->
  expected_header_of a w = Ret eh ->
  observed_header a w = Ret h ->
  h <> Some eh ->
  fst (validate_csv a w boot) = Ret tt
  /\ console (snd (validate_csv a w boot))
     = [EncodingOk; ExpectedHeader eh; HeaderMismatch; HeaderInFile h;
        HeaderExpected eh]
  /\ filter is_report_total (console (snd (validate_csv a w boot))) = []
  /\ row_errors (console (snd (validate_csv a w boot))) = 0
  /\ total (snd (validate_csv a w boot)) = 0
  /\ clean_fh (snd (validate_csv a w boot)) = None
  /\ err_fh (snd (validate_csv a w boot)) = None.
Proof.
  intros E X O D. rewrite (validate_csv_mismatch a w t eh h E X O D).
  simpl. repeat split; reflexivity.
Qed.

(** C7, as amended. A failed encoding check and a header mismatch each
    print their message and return: the completion status is 0 in both
    cases.  Invalid records do not change the completion status either: with
    sinks that never fill, a run whose files decode and whose header matches
    completes with status 0 whatever its records are. *)
Theorem completion_status `{Host} (a : args) (w : world) :
  (forall start reason,
     utf8_decode (file_bytes w (big_csv a)) = DecodeError start reason ->
     main a w
     = (0, set_console
             [EncodingBad ("UnicodeDecodeError @ byte " ++ dec start ++ ": "
                           ++ reason);
              EncodingHint] boot))
  /\ (forall t eh h,
        utf8_decode (file_bytes w (big_csv a)) = Text t ->
        expected_header_of a w = Ret eh ->
        observed_header a w = Ret h ->
        h <> Some eh ->
        main a w
        = (0, set_console
                [EncodingOk; ExpectedHeader eh; HeaderMismatch;
                 HeaderInFile h; HeaderExpected eh] boot))
  /\ (forall t eh,
        utf8_decode (file_bytes w (big_csv a)) = Text t ->
        expected_header_of a w = Ret eh ->
        observed_header a w = Ret (Some eh) ->
        (forall p, sink_room w p = None) ->
        fst (main a w) = 0).
Proof.
  unfold main. split; [| split].
  - intros start reason E.
    rewrite (validate_csv_encoding a w start reason E). reflexivity.
  - intros t eh h E X O D.
    rewrite (validate_csv_mismatch a w t eh h E X O D). reflexivity.
  - intros t eh E X O U.
    pose proof (validate_csv_returns a w t eh E X O U) as R.
    destruct (validate_csv a w boot) as [r s]. simpl in R. subst r.
    reflexivity.
Qed.

(** C8, as amended. When the opening of lines 122-142 returns, each sink
    asked for has been handed exactly its header row and a sink not asked for
    does not exist.  In every run, a sink the run holds has been closed
    exactly once when [validate_csv] returns; when an exception leaves it,
    no sink has been closed twice and the error log only after the clean
    copy.  After a run that went through the pass and returned, each sink
    asked for exists and has been closed exactly once; after a run that a
    pre-pass check aborted, no sink exists.  An exception of the loop ends
    the run in the state the loop left, with no [close()] on either sink.
    [close()] flushes the rows still in the buffer and can raise for them:
    when it raises for the clean copy on line 181, the run ends there, the
    clean copy closed and the error log never closed; when it raises for
    the error log on line 183, both sinks have been closed. *)
Theorem sinks_lifecycle `{Host} (a : args) (w : world) (eh : row)
  (s0 : state) :
  (fst (init_pass a w eh s0) = Ret tt ->
   option_map h_rows (clean_fh (snd (init_pass a w eh s0)))
   = (if truthy (out_clean a) then Some [eh] else None)
   /\ option_map h_rows (err_fh (snd (init_pass a w eh s0)))
      = (if truthy (errors_out a)
         then Some [["line_no"; "error_code"; "message"; "col0"; "col1";
                     "col2"; "raw_len"]]
         else None))
  /\ match fst (validate_csv a w boot) with
     | Ret _ => sinks_closed 1 (snd (validate_csv a w boot))
     | Raise _ => closed_in_turn (snd (validate_csv a w boot))
     end
  /\ (forall t,
        utf8_decode (file_bytes w (big_csv a)) = Text t ->
        expected_header_of a w = Ret eh ->
        observed_header a w = Ret (Some eh) ->
        fst (validate_csv a w boot) = Ret tt ->
        closes_of (clean_fh (snd (validate_csv a w boot)))
        = (if truthy (out_clean a) then Some 1%nat else None)
        /\ closes_of (err_fh (snd (validate_csv a w boot)))
           = (if truthy (errors_out a) then Some 1%nat else None))
  /\ (forall start reason,
        utf8_decode (file_bytes w (big_csv a)) = DecodeError start reason ->
        clean_fh (snd (validate_csv a w boot)) = None
        /\ err_fh (snd (validate_csv a w boot)) = None)
  /\ (forall t h,
        utf8_decode (file_bytes w (big_csv a)) = Text t ->
        expected_header_of a w = Ret eh ->
        observed_header a w = Ret h ->
        h <> Some eh ->
        clean_fh (snd (validate_csv a w boot)) = None
        /\ err_fh (snd (validate_csv a w boot)) = None)
  /\ (forall t rows e,
        utf8_decode (file_bytes w (big_csv a)) = Text t ->
        expected_header_of a w = Ret eh ->
        observed_header a w = Ret (Some eh) ->
        data_rows a w = Ret rows ->
        fst (init_pass a w eh (pass_entry eh)) = Ret tt ->
        fst (loop_of a w eh rows) = Raise e ->
        validate_csv a w boot = (Raise e, snd (loop_of a w eh rows))
        /\ closes_of (clean_fh (snd (validate_csv a w boot)))
           = (if truthy (out_clean a) then Some 0%nat else None)
        /\ closes_of (err_fh (snd (validate_csv a w boot)))
           = (if truthy (errors_out a) then Some 0%nat else None))
  /\ (forall t rows h e,
        utf8_decode (file_bytes w (big_csv a)) = Text t ->
        expected_header_of a w = Ret eh ->
        observed_header a w = Ret (Some eh) ->
        data_rows a w = Ret rows ->
        fst (init_pass a w eh (pass_entry eh)) = Ret tt ->
        fst (loop_of a w eh rows) = Ret tt ->
        clean_fh (snd (loop_of a w eh rows)) = Some h ->
        fst (handle_close h) = Raise e ->
        fst (validate_csv a w boot) = Raise e
        /\ closes_of (clean_fh (snd (validate_csv a w boot))) = Some 1%nat
        /\ closes_of (err_fh (snd (validate_csv a w boot)))
           = (if truthy (errors_out a) then Some 0%nat else None))
  /\ (forall t rows h e,
        utf8_decode (file_bytes w (big_csv a)) = Text t ->
        expected_header_of a w = Ret eh ->
        observed_header a w = Ret (Some eh) ->
        data_rows a w = Ret rows ->
        fst (init_pass a w eh (pass_entry eh)) = Ret tt ->
        fst (loop_of a w eh rows) = Ret tt ->
        (forall hc, clean_fh (snd (loop_of a w eh rows)) = Some hc ->
                    fst (handle_close hc) = Ret tt) ->
        err_fh (snd (loop_of a w eh rows)) = Some h ->
        fst (handle_close h) = Raise e ->
        fst (validate_csv a w boot) = Raise e
        /\ closes_of (clean_fh (snd (validate_csv a w boot)))
           = (if truthy (out_clean a) then Some 1%nat else None)
        /\ closes_of (err_fh (snd (validate_csv a w boot))) = Some 1%nat).
Proof.
  split; [| split; [| split; [| split; [| split; [| split; [| split]]]]]].
  - intros I. destruct (init_pass_ret a w eh s0 I) as (C & E & _).
    split; assumption.
  - apply validate_csv_closes.
  - intros t E X O R. apply (validate_csv_closed_once a w t eh E X O R).
  - intros start reason E.
    rewrite (validate_csv_encoding a w start reason E). split; reflexivity.
  - intros t h E X O D.
    rewrite (validate_csv_mismatch a w t eh h E X O D). split; reflexivity.
  - intros t rows e E X O D I L.
    rewrite (validate_csv_loop_raises a w t eh rows e E X O D I L).
    split; [reflexivity |]. apply loop_of_closes. exact I.
  - intros t rows h e E X O D I L C K.
    pose proof (close_sinks_clean_raises _ h e C K) as Q.
    rewrite (validate_csv_close_raises a w t eh rows e E X O D I L
               (f_equal fst Q)).
    rewrite Q.
    destruct (loop_of_closes a w eh rows I) as [Cc Ce].
    destruct (handle_close_closed h) as (Kc & _ & _).
    simpl. rewrite Kc. unfold closes_of in Cc. rewrite C in Cc.
    split; [reflexivity |]. split; [| exact Ce].
    destruct (truthy (out_clean a)); simpl in Cc; [| discriminate Cc].
    injection Cc as ->. reflexivity.
  - intros t rows h e E X O D I L C F K.
    destruct (close_sinks_errors_raises _ h e C F K) as (Q & Qc & Qe).
    rewrite (validate_csv_close_raises a w t eh rows e E X O D I L Q).
    destruct (loop_of_closes a w eh rows I) as [Cc Ce].
    simpl. rewrite Qc, Qe, Cc.
    unfold closes_of in Ce. rewrite F in Ce.
    split; [reflexivity |]. split.
    + destruct (truthy (out_clean a)); reflexivity.
    + destruct (truthy (errors_out a)); simpl in Ce; [| discriminate Ce].
      injection Ce as ->. reflexivity.
Qed.

(** C9, as amended. The codec [utf-8-sig] of [open_text_utf8_strict] drops
    a leading byte-order mark without being asked to: the text of a file
    that starts with the mark is the decoding of what follows it, and the
    observed header is the first record of that text. *)
Theorem utf8_sig_strips_bom `{Host} (a : args) (w : world) (content : bytes) :
  strip_bom (BOM ++ content)%list = content
  /\ open_text_utf8_strict (BOM ++ content)%list
     = match utf8_decode content with
       | Text t => Ret t
       | DecodeError _ _ => Raise UnicodeDecodeError
       end
  /\ (file_bytes w (big_csv a) = (BOM ++ content)%list ->
      observed_header a w
      = match utf8_decode content with
        | Text t => Ret (hd_error (csv_reader t))
        | DecodeError _ _ => Raise UnicodeDecodeError
        end).
Proof.
  assert (S : strip_bom (BOM ++ content)%list = content) by reflexivity.
  split; [exact S |]. split.
  - unfold open_text_utf8_strict. rewrite S. reflexivity.
  - intros E. unfold observed_header, open_text_utf8_strict.
    rewrite E, S. destruct (utf8_decode content); reflexivity.
Qed.

(** * Sample runs, witnesses and counterexamples *)

(** Scenario A of the specification: one valid record and three invalid
    ones of three kinds. *)
Example scenario_mixed :
  let s := snd (Scenario.run Scenario.with_sinks Scenario.mixed
                  Scenario.no_limit) in
  total s = 4 /\ valid s = 1
  /\ err_counts s
     = [("name_empty", 1); ("freq_negative", 1); ("idx_not_int", 1)]
  /\ clean_records s = [["0"; "Alice"; "5"]].
Proof. vm_compute. repeat split; reflexivity. Qed.

(** Scenario D: ten records of one kind, three samples kept, ten counted. *)
Example scenario_ten_short :
  let s := snd (Scenario.run Scenario.three_samples Scenario.ten_short
                  Scenario.no_limit) in
  err_counts s = [("fields_count", 10)]
  /\ length (samples_of s "fields_count") = 3%nat
  /\ row_errors (console s) = 2.
Proof. vm_compute. repeat split; reflexivity. Qed.

Lemma validate_row_four_checks_witness :
  rmap fst (@validate_row Reference.host ["1"; "2"] 7)
  = Ret (Some "fields_count").
Proof.
  apply (proj2 (proj2 (@validate_row_four_checks Reference.host ["1"; "2"] 7))).
  discriminate.
Defined.

Lemma counters_balance_witness :
  total (snd (@stream Reference.host Scenario.three_samples 2
                (firstn 2 Scenario.short_rows) (at_entry None None [])))
  = 2.
Proof.
  apply (proj2 (proj2 (proj1
           (@counters_balance Reference.host Scenario.three_samples
              (Scenario.world_of Scenario.mixed Scenario.no_limit)
              Scenario.short_rows 2 None None [])))).
  reflexivity.
Defined.


Lemma print_budget_witness :
  row_errors (console (snd (Scenario.run Scenario.three_samples
                              Scenario.ten_short Scenario.no_limit)))
  <= 2
  /\ row_errors (console (snd (Scenario.run_loop Scenario.three_samples
                                 Scenario.short_rows)))
     - row_errors [] <= 2
  /\ (fst (Scenario.run_loop Scenario.three_samples Scenario.short_rows)
      = Ret tt ->
      row_errors (console (snd (Scenario.run_loop Scenario.three_samples
                                  Scenario.short_rows)))
      - row_errors []
      = Z.min 2 (@invalid_count Reference.host Scenario.short_rows)).
Proof.
  apply (@print_budget Reference.host Scenario.three_samples
           (Scenario.world_of Scenario.ten_short Scenario.no_limit)
           Scenario.short_rows 2 None None []).
  simpl. lia.
Defined.

Lemma clean_copy_revalidates_witness :
  rows_of (clean_fh (snd (@stream Reference.host Scenario.defaults 2
                            [["0"; "Alice"; "5"]; ["x"]; ["1"; "Bob"; "2"]]
                            (at_entry (Some (handle_open None false)) None []))))
  = [["0"; "Alice"; "5"]; ["1"; "Bob"; "2"]].
Proof.
  apply (proj2 (@clean_copy_revalidates Reference.host Scenario.defaults
                  (Scenario.world_of Scenario.mixed Scenario.no_limit)
                  [["0"; "Alice"; "5"]; ["x"]; ["1"; "Bob"; "2"]] 2
                  (handle_open None false) None [])).
  reflexivity.
Defined.


(** C3, counterexample. Scenario B of the specification: the header [a,b]
    against the default expected header.  The run prints the five lines of
    the header check and stops; no total is among them, so no total of 0 is
    reported. *)
Lemma header_mismatch_reports_no_total :
  @observed_header Reference.host Scenario.defaults
    (Scenario.world_of Scenario.short_header Scenario.no_limit)
  = Ret (Some ["a"; "b"])
  /\ @expected_header_of Reference.host Scenario.defaults
       (Scenario.world_of Scenario.short_header Scenario.no_limit)
     = Ret EXPECTED_HEADER
  /\ console (snd (Scenario.run Scenario.defaults Scenario.short_header
                     Scenario.no_limit))
     = [EncodingOk; ExpectedHeader EXPECTED_HEADER; HeaderMismatch;
        HeaderInFile (Some ["a"; "b"]); HeaderExpected EXPECTED_HEADER]
  /\ existsb is_report_total
       (console (snd (Scenario.run Scenario.defaults Scenario.short_header
                        Scenario.no_limit)))
     = false.
Proof. vm_compute. repeat split; reflexivity. Qed.

Lemma header_mismatch_aborts_witness :
  fst (Scenario.run Scenario.defaults Scenario.short_header Scenario.no_limit)
  = Ret tt
  /\ filter is_report_total
       (console (snd (Scenario.run Scenario.defaults Scenario.short_header
                        Scenario.no_limit))) = []
  /\ total (snd (Scenario.run Scenario.defaults Scenario.short_header
                   Scenario.no_limit)) = 0
  /\ clean_fh (snd (Scenario.run Scenario.defaults Scenario.short_header
                      Scenario.no_limit)) = None
  /\ err_fh (snd (Scenario.run Scenario.defaults Scenario.short_header
                    Scenario.no_limit)) = None.
Proof.
  unfold Scenario.run.
  destruct (@header_mismatch_aborts Reference.host Scenario.defaults
           (Scenario.world_of Scenario.short_header Scenario.no_limit)
           (string_of_list_byte Scenario.short_header) EXPECTED_HEADER
           (Some ["a"; "b"])) as (R & _ & N & _ & T & C & E).
  - vm_compute. reflexivity.
  - vm_compute. reflexivity.
  - vm_compute. reflexivity.
  - discriminate.
  - repeat split; assumption.
Defined.

(** C7, counterexample. A file that is not UTF-8 (scenario C) and a file
    with a wrong header (scenario B): both runs end with completion status
    0, not with a non-zero one. *)
Lemma fatal_prepass_status_zero :
  truthy (@check_utf8_streaming Reference.host Scenario.bad_encoding) = true
  /\ fst (@main Reference.host Scenario.defaults
            (Scenario.world_of Scenario.bad_encoding Scenario.no_limit)) = 0
  /\ console (snd (@main Reference.host Scenario.defaults
                     (Scenario.world_of Scenario.bad_encoding
                        Scenario.no_limit)))
     = [EncodingBad "UnicodeDecodeError @ byte 27: invalid start byte";
        EncodingHint]
  /\ fst (@main Reference.host Scenario.defaults
            (Scenario.world_of Scenario.short_header Scenario.no_limit)) = 0.
Proof. vm_compute. repeat split; reflexivity. Qed.

Lemma completion_status_witness :
  fst (@main Reference.host Scenario.defaults
         (Scenario.world_of Scenario.bad_encoding Scenario.no_limit)) = 0
  /\ fst (@main Reference.host Scenario.defaults
            (Scenario.world_of Scenario.short_header Scenario.no_limit)) = 0
  /\ fst (@main Reference.host Scenario.with_sinks
            (Scenario.world_of Scenario.all_invalid Scenario.no_limit)) = 0.
Proof.
  split; [| split].
  - assert (E : @utf8_decode Reference.host
                  (file_bytes (Scenario.world_of Scenario.bad_encoding
                                 Scenario.no_limit)
                     (big_csv Scenario.defaults))
                = DecodeError 27 "invalid start byte")
      by (vm_compute; reflexivity).
    rewrite (proj1 (@completion_status Reference.host Scenario.defaults
                      (Scenario.world_of Scenario.bad_encoding
                         Scenario.no_limit)) _ _ E).
    reflexivity.
  - apply (f_equal fst
             (proj1 (proj2 (@completion_status Reference.host Scenario.defaults
                              (Scenario.world_of Scenario.short_header
                                 Scenario.no_limit)))
                (string_of_list_byte Scenario.short_header) EXPECTED_HEADER
                (Some ["a"; "b"])
                ltac:(vm_compute; reflexivity) ltac:(vm_compute; reflexivity)
                ltac:(vm_compute; reflexivity) ltac:(discriminate))).
  - apply (proj2 (proj2 (@completion_status Reference.host Scenario.with_sinks
                           (Scenario.world_of Scenario.all_invalid
                              Scenario.no_limit)))
             (string_of_list_byte Scenario.all_invalid) EXPECTED_HEADER).
    + vm_compute. reflexivity.
    + vm_compute. reflexivity.
    + vm_compute. reflexivity.
    + intros p. reflexivity.
Defined.

(** C8, counterexample. The clean copy goes to a device that is full.  Its
    rows stay in the buffer of the file object during the loop, which reads
    all four records; [close()] on line 181 flushes them and raises
    [OSError], the exception leaves [validate_csv], and line 183 is not
    reached: the error log has received no [close()]. *)
Lemma io_failure_leaves_sinks_open :
  fst (Scenario.run Scenario.with_sinks Scenario.mixed Scenario.device_full)
  = Raise OSError
  /\ total (snd (Scenario.run Scenario.with_sinks Scenario.mixed
                    Scenario.device_full)) = 4
  /\ closes_of (clean_fh (snd (Scenario.run Scenario.with_sinks Scenario.mixed
                                 Scenario.device_full))) = Some 1%nat
  /\ closes_of (err_fh (snd (Scenario.run Scenario.with_sinks Scenario.mixed
                               Scenario.device_full))) = Some 0%nat.
Proof. vm_compute. repeat split; reflexivity. Qed.

Lemma mixed_decodes :
  @utf8_decode Reference.host
    (file_bytes (Scenario.world_of Scenario.mixed Scenario.no_limit)
       (big_csv Scenario.with_sinks))
  = Text (string_of_list_byte Scenario.mixed).
Proof. vm_compute. reflexivity. Qed.

Lemma mixed_expected_header :
  @expected_header_of Reference.host Scenario.with_sinks
    (Scenario.world_of Scenario.mixed Scenario.no_limit)
  = Ret EXPECTED_HEADER.
Proof. vm_compute. reflexivity. Qed.

Lemma mixed_observed_header :
  @observed_header Reference.host Scenario.with_sinks
    (Scenario.world_of Scenario.mixed Scenario.no_limit)
  = Ret (Some EXPECTED_HEADER).
Proof. vm_compute. reflexivity. Qed.

Lemma mixed_run_returns :
  fst (@validate_csv Reference.host Scenario.with_sinks
         (Scenario.world_of Scenario.mixed Scenario.no_limit) boot)
  = Ret tt.
Proof. vm_compute. reflexivity. Qed.

(** The run of the counterexample, step by step. *)
Lemma full_decodes :
  @utf8_decode Reference.host
    (file_bytes (Scenario.world_of Scenario.mixed Scenario.device_full)
       (big_csv Scenario.with_sinks))
  = Text (string_of_list_byte Scenario.mixed).
Proof. vm_compute. reflexivity. Qed.

Lemma full_expected_header :
  @expected_header_of Reference.host Scenario.with_sinks
    (Scenario.world_of Scenario.mixed Scenario.device_full)
  = Ret EXPECTED_HEADER.
Proof. vm_compute. reflexivity. Qed.

Lemma full_observed_header :
  @observed_header Reference.host Scenario.with_sinks
    (Scenario.world_of Scenario.mixed Scenario.device_full)
  = Ret (Some EXPECTED_HEADER).
Proof. vm_compute. reflexivity. Qed.

Lemma full_data_rows :
  @data_rows Reference.host Scenario.with_sinks
    (Scenario.world_of Scenario.mixed Scenario.device_full)
  = Ret Scenario.mixed_rows.
Proof. vm_compute. reflexivity. Qed.

Lemma full_opens :
  fst (init_pass Scenario.with_sinks
         (Scenario.world_of Scenario.mixed Scenario.device_full)
         EXPECTED_HEADER (pass_entry EXPECTED_HEADER))
  = Ret tt.
Proof. vm_compute. reflexivity. Qed.

Lemma full_loop_returns :
  fst (@loop_of Reference.host Scenario.with_sinks
         (Scenario.world_of Scenario.mixed Scenario.device_full)
         EXPECTED_HEADER Scenario.mixed_rows)
  = Ret tt.
Proof. vm_compute. reflexivity. Qed.

Lemma full_clean_copy :
  clean_fh (snd (@loop_of Reference.host Scenario.with_sinks
                   (Scenario.world_of Scenario.mixed Scenario.device_full)
                   EXPECTED_HEADER Scenario.mixed_rows))
  = Some {| h_rows := [EXPECTED_HEADER; ["0"; "Alice"; "5"]];
            h_pending := 2; h_room := Some 0%nat;
            h_buffer := Scenario.buffer_rows; h_gzip := false;
            h_closes := 0 |}.
Proof. vm_compute. reflexivity. Qed.

Lemma full_close_raises :
  fst (handle_close
         {| h_rows := [EXPECTED_HEADER; ["0"; "Alice"; "5"]];
            h_pending := 2; h_room := Some 0%nat;
            h_buffer := Scenario.buffer_rows; h_gzip := false;
            h_closes := 0 |})
  = Raise OSError.
Proof. vm_compute. reflexivity. Qed.

(** The error log on a full device: both [close()] calls are made, and the
    second one raises. *)
Lemma log_decodes :
  @utf8_decode Reference.host
    (file_bytes (Scenario.world_of Scenario.mixed Scenario.log_full)
       (big_csv Scenario.with_log))
  = Text (string_of_list_byte Scenario.mixed).
Proof. vm_compute. reflexivity. Qed.

Lemma log_expected_header :
  @expected_header_of Reference.host Scenario.with_log
    (Scenario.world_of Scenario.mixed Scenario.log_full)
  = Ret EXPECTED_HEADER.
Proof. vm_compute. reflexivity. Qed.

Lemma log_observed_header :
  @observed_header Reference.host Scenario.with_log
    (Scenario.world_of Scenario.mixed Scenario.log_full)
  = Ret (Some EXPECTED_HEADER).
Proof. vm_compute. reflexivity. Qed.

Lemma log_data_rows :
  @data_rows Reference.host Scenario.with_log
    (Scenario.world_of Scenario.mixed Scenario.log_full)
  = Ret Scenario.mixed_rows.
Proof. vm_compute. reflexivity. Qed.

Lemma log_opens :
  fst (init_pass Scenario.with_log
         (Scenario.world_of Scenario.mixed Scenario.log_full)
         EXPECTED_HEADER (pass_entry EXPECTED_HEADER))
  = Ret tt.
Proof. vm_compute. reflexivity. Qed.

Lemma log_loop_returns :
  fst (@loop_of Reference.host Scenario.with_log
         (Scenario.world_of Scenario.mixed Scenario.log_full)
         EXPECTED_HEADER Scenario.mixed_rows)
  = Ret tt.
Proof. vm_compute. reflexivity. Qed.

Lemma log_clean_closes (hc : handle) :
  clean_fh (snd (@loop_of Reference.host Scenario.with_log
                   (Scenario.world_of Scenario.mixed Scenario.log_full)
                   EXPECTED_HEADER Scenario.mixed_rows))
  = Some hc ->
  fst (handle_close hc) = Ret tt.
Proof. vm_compute. intros E. injection E as <-. reflexivity. Qed.

Lemma log_error_log :
  exists h,
    err_fh (snd (@loop_of Reference.host Scenario.with_log
                   (Scenario.world_of Scenario.mixed Scenario.log_full)
                   EXPECTED_HEADER Scenario.mixed_rows))
    = Some h
    /\ fst (handle_close h) = Raise OSError.
Proof. eexists. vm_compute. split; reflexivity. Qed.

(** Records whose row in the error log is too long for the buffers: the
    first one makes [writerow] flush on line 170, in the middle of the
    pass. *)
Lemma wide_decodes :
  @utf8_decode Reference.host
    (file_bytes Scenario.wide_world (big_csv Scenario.with_log))
  = Text (string_of_list_byte Scenario.wide_records).
Proof. vm_compute. reflexivity. Qed.

Lemma wide_expected_header :
  @expected_header_of Reference.host Scenario.with_log Scenario.wide_world
  = Ret EXPECTED_HEADER.
Proof. vm_compute. reflexivity. Qed.

Lemma wide_observed_header :
  @observed_header Reference.host Scenario.with_log Scenario.wide_world
  = Ret (Some EXPECTED_HEADER).
Proof. vm_compute. reflexivity. Qed.

Lemma wide_data_rows :
  @data_rows Reference.host Scenario.with_log Scenario.wide_world
  = Ret Scenario.wide_rows.
Proof. vm_compute. reflexivity. Qed.

Lemma wide_opens :
  fst (init_pass Scenario.with_log Scenario.wide_world EXPECTED_HEADER
         (pass_entry EXPECTED_HEADER))
  = Ret tt.
Proof. vm_compute. reflexivity. Qed.

Lemma wide_loop_raises :
  fst (@loop_of Reference.host Scenario.with_log Scenario.wide_world
         EXPECTED_HEADER Scenario.wide_rows)
  = Raise OSError.
Proof. vm_compute. reflexivity. Qed.

(** The loop stops at the first of the two records. *)
Lemma wide_loop_total :
  total (snd (@loop_of Reference.host Scenario.with_log Scenario.wide_world
                EXPECTED_HEADER Scenario.wide_rows))
  = 1.
Proof. vm_compute. reflexivity. Qed.

Lemma sinks_lifecycle_witness :
  (closes_of (clean_fh (snd (Scenario.run Scenario.with_sinks Scenario.mixed
                               Scenario.no_limit))) = Some 1%nat
   /\ closes_of (err_fh (snd (Scenario.run Scenario.with_sinks Scenario.mixed
                                Scenario.no_limit))) = Some 1%nat)
  /\ (fst (Scenario.run Scenario.with_sinks Scenario.mixed
             Scenario.device_full) = Raise OSError
      /\ closes_of (clean_fh (snd (Scenario.run Scenario.with_sinks
                                     Scenario.mixed Scenario.device_full)))
         = Some 1%nat
      /\ closes_of (err_fh (snd (Scenario.run Scenario.with_sinks
                                   Scenario.mixed Scenario.device_full)))
         = Some 0%nat)
  /\ (@validate_csv Reference.host Scenario.with_log Scenario.wide_world
        boot
      = (Raise OSError,
         snd (@loop_of Reference.host Scenario.with_log Scenario.wide_world
                EXPECTED_HEADER Scenario.wide_rows))
      /\ closes_of (clean_fh (snd (@validate_csv Reference.host
                                     Scenario.with_log Scenario.wide_world
                                     boot))) = Some 0%nat
      /\ closes_of (err_fh (snd (@validate_csv Reference.host
                                   Scenario.with_log Scenario.wide_world
                                   boot))) = Some 0%nat)
  /\ (fst (Scenario.run Scenario.with_log Scenario.mixed Scenario.log_full)
      = Raise OSError
      /\ closes_of (clean_fh (snd (Scenario.run Scenario.with_log
                                     Scenario.mixed Scenario.log_full)))
         = Some 1%nat
      /\ closes_of (err_fh (snd (Scenario.run Scenario.with_log
                                   Scenario.mixed Scenario.log_full)))
         = Some 1%nat).
Proof.
  unfold Scenario.run. split; [| split; [| split]].
  - pose proof (@sinks_lifecycle Reference.host Scenario.with_sinks
                  (Scenario.world_of Scenario.mixed Scenario.no_limit)
                  EXPECTED_HEADER boot) as P.
    destruct P as (_ & _ & P & _).
    exact (P _ mixed_decodes mixed_expected_header mixed_observed_header
             mixed_run_returns).
  - pose proof (@sinks_lifecycle Reference.host Scenario.with_sinks
                  (Scenario.world_of Scenario.mixed Scenario.device_full)
                  EXPECTED_HEADER boot) as P.
    destruct P as (_ & _ & _ & _ & _ & _ & P & _).
    exact (P _ _ _ _ full_decodes full_expected_header
             full_observed_header full_data_rows full_opens
             full_loop_returns full_clean_copy full_close_raises).
  - pose proof (@sinks_lifecycle Reference.host Scenario.with_log
                  Scenario.wide_world EXPECTED_HEADER boot) as P.
    destruct P as (_ & _ & _ & _ & _ & P & _).
    exact (P _ _ _ wide_decodes wide_expected_header
             wide_observed_header wide_data_rows wide_opens
             wide_loop_raises).
  - pose proof (@sinks_lifecycle Reference.host Scenario.with_log
                  (Scenario.world_of Scenario.mixed Scenario.log_full)
                  EXPECTED_HEADER boot) as P.
    destruct P as (_ & _ & _ & _ & _ & _ & _ & P).
    destruct log_error_log as (h & F & K).
    exact (P _ _ h _ log_decodes log_expected_header log_observed_header
             log_data_rows log_opens log_loop_returns log_clean_closes F K).
Defined.

(** C9, counterexample. The subject file starts with the three bytes of a
    UTF-8 byte-order mark; the first field of the observed header is the
    plain name, without the mark, and the header check passes. *)
Lemma bom_not_in_header :
  firstn 3 Scenario.with_bom = BOM
  /\ @observed_header Reference.host Scenario.defaults
       (Scenario.world_of Scenario.with_bom Scenario.no_limit)
     = Ret (Some ["Unnamed: 0"; "name"; "frequency"])
  /\ String.prefix Scenario.bom_text "Unnamed: 0" = false
  /\ existsb (fun e => match e with HeaderOk => true | _ => false end)
       (console (snd (Scenario.run Scenario.defaults Scenario.with_bom
                        Scenario.no_limit)))
     = true.
Proof. vm_compute. repeat split; reflexivity. Qed.

Lemma utf8_sig_strips_bom_witness :
  @observed_header Reference.host Scenario.defaults
    (Scenario.world_of Scenario.with_bom Scenario.no_limit)
  = Ret (Some ["Unnamed: 0"; "name"; "frequency"]).
Proof.
  assert (E : file_bytes (Scenario.world_of Scenario.with_bom Scenario.no_limit)
                (big_csv Scenario.defaults)
              = (BOM ++ Scenario.lines [Scenario.header_line; "0,Alice,5"])%list)
    by reflexivity.
  rewrite (proj2 (proj2 (@utf8_sig_strips_bom Reference.host Scenario.defaults
                           (Scenario.world_of Scenario.with_bom
                              Scenario.no_limit)
                           (Scenario.lines [Scenario.header_line;
                                            "0,Alice,5"])))
             E).
  vm_compute. reflexivity.
Defined.

(** * Further properties of the script *)

Section BodyLog.
Context `{Host}.
Variables (a : args) (line_no : Z) (r : row) (s : state).

Let s' := snd (body a line_no r s).
Let res := fst (body a line_no r s).

Ltac start :=
  subst s' res;
  destruct (validate_row r line_no) as [[[c |] m] | e] eqn:V;
    [ | | destruct (validate_row_returns r line_no) as (? & ? & ?); congruence ];
    unfold body, bind, lift, modify; simpl; rewrite V.

(** The counters after one record. *)
Lemma body_counts :
  match validate_row r line_no with
  | Ret (Some c, _) =>
      valid s' = valid s
      /\ err_counts s'
         = dict_set (err_counts s) c (dict_get_or (err_counts s) c 0 + 1)
  | _ => valid s' = valid s + 1 /\ err_counts s' = err_counts s
  end.
Proof. start; run; split; reflexivity. Qed.

(** The error log after one record that went through. *)
Lemma body_errors_ret :
  res = Ret tt ->
  rows_of (err_fh s')
  = (rows_of (err_fh s)
     ++ match err_fh s, validate_row r line_no with
        | Some _, Ret (Some c, m) => [error_row line_no r c m]
        | _, _ => []
        end)%list.
Proof.
  start; run; write_facts; simpl in *; intros E;
    try discriminate E; rewrite ?app_nil_r; try congruence.
  all: repeat match goal with
              | F : err_fh s = _ |- _ => rewrite F
              end; simpl; rewrite ?app_nil_r; try reflexivity.
  all: unfold error_row; congruence.
Qed.

(** The error lines and the progress lines after one record that went
    through. *)
Lemma body_console_ret :
  res = Ret tt ->
  filter is_row_error (console s')
  = (filter is_row_error (console s)
     ++ match validate_row r line_no with
        | Ret (Some _, m) =>
            if printed s <? max_print_errors a then [RowError m] else []
        | _ => []
        end)%list
  /\ filter is_progress (console s')
     = (filter is_progress (console s)
        ++ if progress_due a (total s + 1) then [Progress (total s + 1)]
           else [])%list.
Proof.
  unfold progress_due.
  start; run; rewrite ?filter_app; simpl; intros E; try discriminate E;
    rewrite ?app_nil_r;
    repeat match goal with
           | F : ?x = _ |- context [if ?x then _ else _] => rewrite F
           end;
    simpl; rewrite ?app_nil_r; split; try reflexivity.
  all: simpl in *; congruence.
Qed.

End BodyLog.

Lemma dict_get_none_set {V} (d : dict V) (k k' : str) (v : V) :
  dict_get (dict_set d k v) k' = None <-> k <> k' /\ dict_get d k' = None.
Proof.
  rewrite dict_get_set.
  destruct (String.eqb_spec k k') as [-> | N]; split.
  - discriminate.
  - intros [F _]. contradiction.
  - intros E. split; assumption.
  - intros [_ E]. exact E.
Qed.

Section LoopLog.
Context `{Host}.
Variable a : args.

Lemma valid_invalid_count (rows : list row) :
  len (filter is_valid rows) + invalid_count rows = len rows.
Proof.
  induction rows as [| r rows IH].
  - reflexivity.
  - rewrite invalid_count_cons. cbn [filter].
    unfold len in *. destruct (is_valid r); simpl length; lia.
Qed.

Lemma error_rows_count (line_no : Z) (rows : list row) :
  len (error_rows line_no rows) = invalid_count rows.
Proof.
  revert line_no. induction rows as [| r rows IH]; intros line_no.
  - reflexivity.
  - rewrite invalid_count_cons. simpl.
    destruct (validate_row r line_no) as [[c m] | e] eqn:V.
    + rewrite (is_valid_code r line_no c m V). specialize (IH (line_no + 1)).
      destruct c; unfold len in *; simpl length; lia.
    + destruct (validate_row_returns r line_no) as (? & ? & E). congruence.
Qed.

Lemma invalid_messages_count (line_no : Z) (rows : list row) :
  len (invalid_messages line_no rows) = invalid_count rows.
Proof.
  revert line_no. induction rows as [| r rows IH]; intros line_no.
  - reflexivity.
  - rewrite invalid_count_cons. simpl.
    destruct (validate_row r line_no) as [[c m] | e] eqn:V.
    + rewrite (is_valid_code r line_no c m V). specialize (IH (line_no + 1)).
      destruct c; unfold len in *; simpl length; lia.
    + destruct (validate_row_returns r line_no) as (? & ? & E). congruence.
Qed.

Lemma stream_counts (rows : list row) (line_no : Z) (s : state) :
  fst (stream a line_no rows s) = Ret tt ->
  valid (snd (stream a line_no rows s))
  = valid s + len (filter is_valid rows)
  /\ forall code,
       dict_get_or (err_counts (snd (stream a line_no rows s))) code 0
       = dict_get_or (err_counts s) code 0
         + len (occurrences code line_no rows)
       /\ (dict_get (err_counts (snd (stream a line_no rows s))) code = None
           <-> dict_get (err_counts s) code = None
               /\ occurrences code line_no rows = []).
Proof.
  revert line_no s. induction rows as [| r rest IH]; intros line_no s.
  - intros _. simpl. unfold len. simpl. split; [lia |].
    intros code. split; [lia | tauto].
  - rewrite stream_cons.
    pose proof (body_counts a line_no r s) as B.
    destruct (fst (body a line_no r s)) as [[] | e]; [| discriminate].
    intros R. destruct (IH _ _ R) as [V C]. rewrite V. cbn [filter].
    destruct (validate_row r line_no) as [[[c |] m] | e] eqn:E;
      [ | | destruct (validate_row_returns r line_no) as (? & ? & F);
            congruence ];
      rewrite (is_valid_code r line_no _ m E); destruct B as [Bv Bc];
      (split; [unfold len in *; simpl length; lia |]);
      intros code; destruct (C code) as [C1 C2];
      rewrite occurrences_cons, E, C1, C2, Bc.
    + rewrite dict_get_or_set, dict_get_none_set.
      destruct (String.eqb_spec c code) as [-> | N]; simpl.
      * unfold len. simpl length. split; [lia |].
        split; [intros [[F _] _]; contradiction | intros [_ F]; discriminate].
      * split; [reflexivity | tauto].
    + simpl. split; [reflexivity | tauto].
Qed.

Lemma stream_errors_ret (rows : list row) (line_no : Z) (s : state) :
  fst (stream a line_no rows s) = Ret tt ->
  rows_of (err_fh (snd (stream a line_no rows s)))
  = (rows_of (err_fh s)
     ++ match err_fh s with
        | Some _ => error_rows line_no rows
        | None => []
        end)%list.
Proof.
  revert line_no s. induction rows as [| r rest IH]; intros line_no s.
  - intros _. simpl. destruct (err_fh s); rewrite app_nil_r; reflexivity.
  - rewrite stream_cons.
    pose proof (body_errors_ret a line_no r s) as B.
    destruct (body_closes a line_no r s) as [_ C].
    apply closes_of_some in C.
    destruct (fst (body a line_no r s)) as [[] | e]; [| discriminate].
    intros R. rewrite (IH _ _ R), (B eq_refl). simpl error_rows.
    destruct (err_fh s).
    + destruct (err_fh (snd (body a line_no r s))); [| contradiction].
      rewrite <- app_assoc.
      destruct (validate_row r line_no) as [[[c |] m] | e]; reflexivity.
    + rewrite C. reflexivity.
Qed.

Lemma stream_row_error_lines (rows : list row) (line_no : Z) (s : state) :
  fst (stream a line_no rows s) = Ret tt ->
  filter is_row_error (console (snd (stream a line_no rows s)))
  = (filter is_row_error (console s)
     ++ map RowError
          (firstn (Z.to_nat (max_print_errors a - printed s))
             (invalid_messages line_no rows)))%list.
Proof.
  revert line_no s. induction rows as [| r rest IH]; intros line_no s.
  - intros _. simpl. rewrite firstn_nil, app_nil_r. reflexivity.
  - rewrite stream_cons.
    pose proof (body_console_ret a line_no r s) as B.
    destruct (body_printed a line_no r s) as (_ & _ & P).
    destruct (fst (body a line_no r s)) as [[] | e]; [| discriminate].
    intros R. rewrite (IH _ _ R). destruct (B eq_refl) as [-> _].
    rewrite (P eq_refl). simpl invalid_messages. rewrite <- app_assoc.
    f_equal.
    destruct (validate_row r line_no) as [[[c |] m] | e] eqn:E;
      [ | | destruct (validate_row_returns r line_no) as (? & ? & F);
            congruence ];
      rewrite (is_valid_code r line_no _ m E).
    + destruct (Z.ltb_spec (printed s) (max_print_errors a)) as [L | L].
      * replace (Z.to_nat (max_print_errors a - printed s))
          with (S (Z.to_nat (max_print_errors a - (printed s + 1)))) by lia.
        reflexivity.
      * replace (Z.to_nat (max_print_errors a - printed s)) with 0%nat by lia.
        reflexivity.
    + reflexivity.
Qed.

Lemma count_from_progress (rows : list row) (line_no : Z) (s : state) :
  fst (stream a line_no rows s) = Ret tt ->
  filter is_progress (console (snd (stream a line_no rows s)))
  = (filter is_progress (console s)
     ++ map Progress
          (filter (progress_due a) (count_from (total s) (length rows))))%list.
Proof.
  revert line_no s. induction rows as [| r rest IH]; intros line_no s.
  - intros _. simpl. rewrite app_nil_r. reflexivity.
  - rewrite stream_cons.
    pose proof (body_console_ret a line_no r s) as B.
    pose proof (body_total a line_no r s) as T.
    destruct (fst (body a line_no r s)) as [[] | e]; [| discriminate].
    intros R. rewrite (IH _ _ R). destruct (B eq_refl) as [_ ->].
    rewrite T, <- app_assoc. f_equal. simpl.
    destruct (progress_due a (total s + 1)); reflexivity.
Qed.

End LoopLog.

Lemma error_rows_width `{Host} (line_no : Z) (rows : list row) :
  Forall (fun cells => length cells = 7%nat) (error_rows line_no rows).
Proof.
  revert line_no. induction rows as [| r rows IH]; intros line_no; simpl.
  - constructor.
  - destruct (validate_row r line_no) as [[[c |] m] | e]; try apply IH.
    constructor; [reflexivity | apply IH].
Qed.

(** ** Sinks, counters and console after the loop *)

(** X1. After a loop that went through with the error log open, the error
    log has received one row per invalid record and none for a valid one, in
    the order of the records: the line number, the code, the message, the
    first three fields (empty where the record is shorter) and the number of
    fields, seven cells each. *)
Theorem error_log_rows `{Host} (a : args) (rows : list row) (line_no : Z)
  (cfh : option handle) (h : handle) (con : list event) :
  fst (stream a line_no rows (at_entry cfh (Some h) con)) = Ret tt ->
  rows_of (err_fh (snd (stream a line_no rows (at_entry cfh (Some h) con))))
  = (h_rows h ++ error_rows line_no rows)%list
  /\ len (error_rows line_no rows) = invalid_count rows
  /\ Forall (fun cells => length cells = 7%nat) (error_rows line_no rows).
Proof.
  intros R. split; [| split].
  - rewrite (stream_errors_ret a rows line_no _ R). reflexivity.
  - apply error_rows_count.
  - apply error_rows_width.
Qed.

(** X2. After a loop that went through with both sinks open, every record
    has gone to exactly one of them: the rows added to the clean copy and
    the rows added to the error log are as many as the records. *)
Theorem every_record_in_one_sink `{Host} (a : args) (rows : list row)
  (line_no : Z) (hc he : handle) (con : list event) :
  fst (stream a line_no rows (at_entry (Some hc) (Some he) con)) = Ret tt ->
  (len (rows_of (clean_fh (snd (stream a line_no rows
                                  (at_entry (Some hc) (Some he) con)))))
   - len (h_rows hc))
  + (len (rows_of (err_fh (snd (stream a line_no rows
                                  (at_entry (Some hc) (Some he) con)))))
     - len (h_rows he))
  = len rows.
Proof.
  intros R.
  rewrite (stream_clean_ret a rows line_no _ R).
  rewrite (stream_errors_ret a rows line_no _ R). simpl.
  rewrite !len_app, error_rows_count.
  pose proof (valid_invalid_count rows). lia.
Qed.

(** X3. After a loop that went through, [valid] is the number of valid
    records, [total - valid] the number of invalid ones, and [err_counts]
    maps each code to the number of records classified with it; a code is
    absent from [err_counts] exactly when no record has it. *)
Theorem counters_count `{Host} (a : args) (rows : list row) (line_no : Z)
  (cfh efh : option handle) (con : list event) (code : str) :
  fst (stream a line_no rows (at_entry cfh efh con)) = Ret tt ->
  valid (snd (stream a line_no rows (at_entry cfh efh con)))
  = len (filter is_valid rows)
  /\ total (snd (stream a line_no rows (at_entry cfh efh con)))
     - valid (snd (stream a line_no rows (at_entry cfh efh con)))
     = invalid_count rows
  /\ dict_get_or (err_counts (snd (stream a line_no rows
                                     (at_entry cfh efh con)))) code 0
     = len (occurrences code line_no rows)
  /\ (dict_get (err_counts (snd (stream a line_no rows
                                   (at_entry cfh efh con)))) code = None
      <-> occurrences code line_no rows = []).
Proof.
  intros R.
  destruct (stream_counts a rows line_no _ R) as [V C].
  destruct (stream_total a rows line_no (at_entry cfh efh con)) as [_ T].
  specialize (T R). destruct (C code) as [C1 C2].
  simpl in V, T, C1, C2. pose proof (valid_invalid_count rows).
  split; [lia |]. split; [lia |]. split.
  - rewrite C1. unfold dict_get_or. simpl. lia.
  - rewrite C2. tauto.
Qed.

(** X4. Whatever the sample size, also zero or negative, the sample set of
    a kind never holds more than [max 0 sample_per_type] messages, at any
    point of the loop; after a loop that went through it is the first
    [sample_per_type] messages of the kind in line order, so all of them
    when the kind occurs less often, and none when the size is not
    positive. *)
Theorem samples_any_size `{Host} (a : args) (code : str) (rows : list row)
  (line_no : Z) (cfh efh : option handle) (con : list event) :
  len (samples_of (snd (stream a line_no rows (at_entry cfh efh con))) code)
  <= Z.max 0 (sample_per_type a)
  /\ (fst (stream a line_no rows (at_entry cfh efh con)) = Ret tt ->
      samples_of (snd (stream a line_no rows (at_entry cfh efh con))) code
      = firstn (Z.to_nat (sample_per_type a))
          (occurrences code line_no rows)).
Proof.
  split.
  - apply (stream_keeps a
             (fun s => len (samples_of s code) <= Z.max 0 (sample_per_type a))).
    + intros l r s B. rewrite body_samples.
      destruct (validate_row r l) as [[[c |] m] | e]; try exact B.
      destruct (String.eqb c code); simpl; [| exact B].
      destruct (Z.ltb_spec (len (samples_of s code)) (sample_per_type a));
        [| exact B].
      rewrite len_app. unfold len in *. simpl length. lia.
    + unfold samples_of, dict_get_or, len. simpl. lia.
  - intros R. rewrite (stream_samples a code rows line_no _ R).
    rewrite extend_firstn. unfold samples_of, dict_get_or. simpl.
    destruct (Z.ltb_spec (len (@nil (option str))) (sample_per_type a))
      as [L | L]; [reflexivity |].
    unfold len in L. simpl in L.
    replace (Z.to_nat (sample_per_type a)) with 0%nat by lia. reflexivity.
Qed.

(** X5. After a loop that went through, the per-record error lines on the
    console are the messages of the first [max_print_errors] invalid
    records, of whatever kinds, in line order. *)
Theorem printed_lines_are_first_errors `{Host} (a : args) (rows : list row)
  (line_no : Z) (cfh efh : option handle) (con : list event) :
  fst (stream a line_no rows (at_entry cfh efh con)) = Ret tt ->
  filter is_row_error
    (console (snd (stream a line_no rows (at_entry cfh efh con))))
  = (filter is_row_error con
     ++ map RowError
          (firstn (Z.to_nat (max_print_errors a))
             (invalid_messages line_no rows)))%list.
Proof.
  intros R. rewrite (stream_row_error_lines a rows line_no _ R). simpl.
  rewrite Z.sub_0_r. reflexivity.
Qed.

(** ** Progress lines *)

Lemma div_step (t m : Z) :
  0 < m ->
  (t + 1) / m - t / m = if (t + 1) mod m =? 0 then 1 else 0.
Proof.
  intros M.
  pose proof (Z.div_mod t m ltac:(lia)) as D.
  pose proof (Z.mod_pos_bound t m M) as B.
  destruct (Z.eq_dec (t mod m + 1) m) as [E | N].
  - assert (Q : (t + 1) / m = t / m + 1).
    { symmetry. apply (Z.div_unique (t + 1) m (t / m + 1) 0); lia. }
    assert (R : (t + 1) mod m = 0).
    { symmetry. apply (Z.mod_unique (t + 1) m (t / m + 1) 0); lia. }
    rewrite Q, R. simpl. lia.
  - assert (Q : (t + 1) / m = t / m).
    { symmetry. apply (Z.div_unique (t + 1) m (t / m) (t mod m + 1)); lia. }
    assert (R : (t + 1) mod m = t mod m + 1).
    { symmetry. apply (Z.mod_unique (t + 1) m (t / m) (t mod m + 1)); lia. }
    rewrite Q, R. destruct (Z.eqb_spec (t mod m + 1) 0); lia.
Qed.

Lemma mod_abs_zero (t n : Z) :
  n <> 0 -> (t mod n =? 0) = (t mod Z.abs n =? 0).
Proof.
  intros N.
  destruct (Z.eqb_spec (t mod n) 0) as [E | E];
    destruct (Z.eqb_spec (t mod Z.abs n) 0) as [F | F]; try reflexivity;
    exfalso.
  - apply F. apply Z.mod_divide; [lia |].
    apply Z.divide_abs_l. apply Z.mod_divide; assumption.
  - apply E. apply Z.mod_divide; [assumption |].
    apply Z.divide_abs_l. apply Z.mod_divide; [lia | assumption].
Qed.

Lemma progress_count (a : args) (t : Z) (n : nat) :
  progress_every a <> 0 ->
  len (filter (progress_due a) (count_from t n))
  = (t + Z.of_nat n) / Z.abs (progress_every a)
    - t / Z.abs (progress_every a).
Proof.
  intros N. revert t. induction n as [| n IH]; intros t.
  - unfold len. simpl. rewrite Z.add_0_r. lia.
  - cbn [count_from filter].
    pose proof (div_step t (Z.abs (progress_every a)) ltac:(lia)) as D.
    unfold progress_due at 1.
    rewrite (mod_abs_zero (t + 1) (progress_every a) N).
    destruct (Z.eqb_spec (progress_every a) 0) as [| _]; [contradiction |].
    cbn [negb andb]. specialize (IH (t + 1)).
    replace (t + 1 + Z.of_nat n) with (t + Z.of_nat (S n)) in IH by lia.
    destruct ((t + 1) mod Z.abs (progress_every a) =? 0);
      unfold len in *; simpl length; lia.
Qed.

Lemma progress_off (a : args) (l : list Z) :
  progress_every a = 0 -> filter (progress_due a) l = [].
Proof.
  intros E. induction l as [| t l IH]; [reflexivity |].
  simpl. unfold progress_due at 1. rewrite E. simpl. exact IH.
Qed.

(** X6. After a loop that went through, the progress lines on the console
    are one for each count [t] of records read, from 1 to the number of
    records, that [progress_every] divides, in order and carrying [t]; there
    is none when [progress_every] is 0, and otherwise their number is the
    number of records divided by the absolute value of [progress_every]. *)
Theorem progress_lines `{Host} (a : args) (rows : list row) (line_no : Z)
  (cfh efh : option handle) (con : list event) :
  fst (stream a line_no rows (at_entry cfh efh con)) = Ret tt ->
  filter is_progress
    (console (snd (stream a line_no rows (at_entry cfh efh con))))
  = (filter is_progress con
     ++ map Progress
          (filter (progress_due a) (count_from 0 (length rows))))%list
  /\ (progress_every a = 0 ->
      filter (progress_due a) (count_from 0 (length rows)) = [])
  /\ (progress_every a <> 0 ->
      len (filter (progress_due a) (count_from 0 (length rows)))
      = len rows / Z.abs (progress_every a)).
Proof.
  intros R. split; [| split].
  - rewrite (count_from_progress a rows line_no _ R). reflexivity.
  - apply progress_off.
  - intros N. rewrite (progress_count a 0 (length rows) N).
    rewrite Z.div_0_l by lia. unfold len. simpl. lia.
Qed.

(** ** The summary table *)

Lemma insert_by_count_perm (x : str * Z) (l : list (str * Z)) :
  Permutation (x :: l) (insert_by_count x l).
Proof.
  induction l as [| y l IH]; simpl.
  - apply Permutation_refl.
  - destruct (snd y <=? snd x); [apply Permutation_refl |].
    eapply Permutation_trans; [apply perm_swap |].
    apply perm_skip. exact IH.
Qed.

Lemma insert_by_count_sorted (x : str * Z) (l : list (str * Z)) :
  StronglySorted (fun p q => snd q <= snd p) l ->
  StronglySorted (fun p q => snd q <= snd p) (insert_by_count x l).
Proof.
  induction l as [| y l IH]; intros S; simpl.
  - constructor; constructor.
  - inversion S as [| ? ? S' F]; subst.
    destruct (Z.leb_spec (snd y) (snd x)) as [L | L].
    + constructor; [exact S |]. constructor; [exact L |].
      eapply Forall_impl; [| exact F]. simpl. intros q Q. lia.
    + constructor; [apply IH; exact S' |].
      eapply Permutation_Forall; [apply insert_by_count_perm |].
      constructor; [lia | exact F].
Qed.

Lemma insert_by_count_ties (c : Z) (x : str * Z) (l : list (str * Z)) :
  StronglySorted (fun p q => snd q <= snd p) l ->
  with_count c (insert_by_count x l) = with_count c (x :: l).
Proof.
  unfold with_count. induction l as [| y l IH]; intros S.
  - reflexivity.
  - inversion S as [| ? ? S' F]; subst. cbn [insert_by_count].
    destruct (Z.leb_spec (snd y) (snd x)) as [L | L]; [reflexivity |].
    cbn [filter] in *. rewrite (IH S').
    destruct (Z.eqb_spec (snd x) c) as [X | X];
      destruct (Z.eqb_spec (snd y) c) as [Y | Y]; try reflexivity.
    lia.
Qed.

(** X7. The per-kind table of the report (line 198) lists the entries of
    [err_counts], each once, by descending count, and entries of equal count
    in the order in which their kinds were first met. *)
Theorem summary_order (d : dict Z) (c : Z) :
  Permutation d (sorted_by_count d)
  /\ StronglySorted (fun p q => snd q <= snd p) (sorted_by_count d)
  /\ with_count c (sorted_by_count d) = with_count c d.
Proof.
  unfold sorted_by_count. induction d as [| x d (P & S & T)]; simpl.
  - split; [constructor | split; [constructor | reflexivity]].
  - split; [| split].
    + eapply Permutation_trans; [apply perm_skip; exact P |].
      apply insert_by_count_perm.
    + apply insert_by_count_sorted. exact S.
    + rewrite (insert_by_count_ties c x _ S). unfold with_count in *.
      cbn [filter]. rewrite T. reflexivity.
Qed.

(** ** The expected header *)

Section ExpectedHeader.
Context `{Host}.
Variables (a : args) (w : world).

Lemma expected_header_nonempty (eh : row) :
  expected_header_of a w = Ret eh -> eh <> [].
Proof.
  unfold expected_header_of, read_header, rbind.
  destruct (truthy (sample_csv a)).
  - destruct (first_record _) as [[[| x h] |] |]; try discriminate;
      intros E; injection E as <-; discriminate.
  - intros E. injection E as <-. discriminate.
Qed.

End ExpectedHeader.


(** X9. A subject file that decodes but holds no record, or whose first
    record is empty, is rejected whatever the expected header is: the run
    prints the header mismatch and returns without reading a record or
    opening a sink. *)
Theorem empty_subject_rejected `{Host} (a : args) (w : world) (t : str)
  (eh : row) (h : option row) :
  utf8_decode (file_bytes w (big_csv a)) = Text t ->
  expected_header_of a w = Ret eh ->
  observed_header a w = Ret h ->
  h = None \/ h = Some [] ->
  validate_csv a w boot
  = (Ret tt,
     set_console
       [EncodingOk; ExpectedHeader eh; HeaderMismatch; HeaderInFile h;
        HeaderExpected eh] boot).
Proof.
  intros E X O D. apply (validate_csv_mismatch a w t eh h E X O).
  pose proof (expected_header_nonempty a w eh X) as N.
  destruct D as [-> | ->]; [discriminate |].
  intros F. injection F as <-. apply N. reflexivity.
Qed.

(** ** The report *)

Lemma emits_ret : emits (ret tt) [].
Proof. intros [? ? ? ? ? ? ? ?]. unfold ret, set_console. simpl.
  rewrite app_nil_r. reflexivity. Qed.

Lemma emits_print (e : event) : emits (print e) [e].
Proof. intros s. reflexivity. Qed.

Lemma emits_bind (m k : M unit) (l1 l2 : list event) :
  emits m l1 -> emits k l2 -> emits (bind m (fun _ => k)) (l1 ++ l2).
Proof.
  intros Hm Hk s. unfold bind. rewrite Hm, Hk.
  unfold set_console. simpl. rewrite app_assoc. reflexivity.
Qed.

Lemma emits_when (b : bool) (m : M unit) (l : list event) :
  emits m l -> emits (when b m) (if b then l else []).
Proof. intros Hm. destruct b; [exact Hm | apply emits_ret]. Qed.

Lemma emits_for_each {A} (f : A -> M unit) (g : A -> list event)
  (l : list A) :
  (forall x, emits (f x) (g x)) -> emits (for_each l f) (flat_map g l).
Proof.
  intros Hf. induction l as [| x l IH]; simpl.
  - apply emits_ret.
  - apply emits_bind; [apply Hf | exact IH].
Qed.

Lemma map_as_flat_map {A B} (f : A -> B) (l : list A) :
  flat_map (fun x => [f x]) l = map f l.
Proof. induction l as [| x l IH]; simpl; [| rewrite IH]; reflexivity. Qed.

(** The report prints [report_lines] and changes nothing else. *)
Lemma report_emits `{Host} (a : args) (s : state) :
  report a s = (Ret tt, set_console (console s ++ report_lines a s) s).
Proof.
  unfold report. unfold bind at 1. unfold print at 1, modify at 1.
  unfold bind at 1, gets. cbv beta iota.
  set (s1 := set_console (console s ++ [Rule]) s).
  assert (E : emits
                (print (ReportTotal (total s1));;
                 print (ReportValid (valid s1));;
                 print (ReportInvalid (total s1 - valid s1));;
                 when (truthy (out_clean a))
                   (print (ReportClean (text_of (out_clean a))));;
                 when (truthy (errors_out a))
                   (print (ReportErrors (text_of (errors_out a))));;
                 match err_counts s1 with
                 | [] => print NoErrors
                 | _ :: _ =>
                     print SummaryTitle;;
                     for_each (sorted_by_count (err_counts s1))
                       (fun '(code, cnt) => print (SummaryCount code cnt));;
                     print (SamplesTitle (sample_per_type a));;
                     for_each (err_samples s1)
                       (fun '(code, samples) =>
                          print (SampleKind code);;
                          for_each samples (fun m => print (Sample m)))
                 end)
                (tl (report_lines a s))).
  { unfold report_lines. simpl tl.
    change (total s1) with (total s). change (valid s1) with (valid s).
    change (err_counts s1) with (err_counts s).
    change (err_samples s1) with (err_samples s).
    apply (emits_bind _ _ [_]); [apply emits_print |].
    apply (emits_bind _ _ [_]); [apply emits_print |].
    apply (emits_bind _ _ [_]); [apply emits_print |].
    apply emits_bind; [apply emits_when, emits_print |].
    apply emits_bind; [apply emits_when, emits_print |].
    destruct (err_counts s) as [| kv d]; [apply emits_print |].
    apply (emits_bind _ _ [_]); [apply emits_print |].
    apply emits_bind.
    { apply emits_for_each. intros [code cnt]. apply emits_print. }
    apply (emits_bind _ _ [_]); [apply emits_print |].
    apply emits_for_each. intros [code samples].
    apply (emits_bind _ _ [_]); [apply emits_print |].
    rewrite <- map_as_flat_map. apply emits_for_each. intros m.
    apply emits_print. }
  rewrite E. unfold s1, set_console. simpl. rewrite <- app_assoc.
  reflexivity.
Qed.

(** X10. With sinks that never fill, a run whose files decode and whose
    header matches returns, and its console ends with the report for the
    final counters: [total] is the number of records after the header,
    [valid] the number of valid ones among them, and the report shows these
    two and their difference, the number of invalid records. *)
Theorem successful_run_report `{Host} (a : args) (w : world) (t : str)
  (eh : row) (rows : list row) :
  utf8_decode (file_bytes w (big_csv a)) = Text t ->
  expected_header_of a w = Ret eh ->
  observed_header a w = Ret (Some eh) ->
  data_rows a w = Ret rows ->
  (forall p, sink_room w p = None) ->
  fst (validate_csv a w boot) = Ret tt
  /\ total (snd (validate_csv a w boot)) = len rows
  /\ valid (snd (validate_csv a w boot)) = len (filter is_valid rows)
  /\ total (snd (validate_csv a w boot)) - valid (snd (validate_csv a w boot))
     = invalid_count rows
  /\ exists before,
       console (snd (validate_csv a w boot))
       = (before ++ report_lines a (snd (validate_csv a w boot)))%list.
Proof.
  intros E X O D U. rewrite (validate_csv_matched a w t eh E X O).
  set (s0 := set_console _ boot).
  destruct (init_pass_unbounded a w eh s0 U) as (I & Uc & Ue).
  destruct (init_pass_counters a w eh s0) as (T1 & V1 & _ & _).
  set (s1 := snd (init_pass a w eh s0)) in *.
  destruct (stream_unbounded a rows 2 s1 Uc Ue) as (S & Uc2 & Ue2).
  destruct (stream_total a rows 2 s1) as [_ T2]. specialize (T2 S).
  destruct (stream_counts a rows 2 s1 S) as [V2 _].
  set (s2 := snd (stream a 2 rows s1)) in *.
  pose proof (close_sinks_unbounded s2 Uc2 Ue2) as K.
  destruct (close_sinks_frame s2) as (T3 & V3 & _).
  assert (P : pass a w eh s0 = close_sinks s2).
  { unfold pass. rewrite (bind_ret _ _ _ _ I). fold s1. rewrite D.
    unfold bind at 1, lift. cbv beta iota.
    rewrite (bind_ret _ _ _ _ S). reflexivity. }
  assert (F : bind (pass a w eh) (fun _ => report a) s0
              = report a (snd (close_sinks s2))).
  { unfold bind. rewrite P. destruct (close_sinks s2) as [r s3].
    simpl in K. subst r. reflexivity. }
  rewrite F, report_emits. simpl.
  pose proof (valid_invalid_count rows).
  split; [reflexivity |]. split; [lia |]. split; [lia |]. split; [lia |].
  eexists. reflexivity.
Qed.

(** ** Messages of the Record Validator *)

Lemma append_assoc (s1 s2 s3 : str) : s1 ++ (s2 ++ s3) = (s1 ++ s2) ++ s3.
Proof. induction s1 as [| c s1 IH]; simpl; [| rewrite IH]; reflexivity. Qed.

(** X12. The line number enters the answer of [validate_row] only as the
    start of the message: the code of a row is the same at every line
    number, the message is the line prefix followed by a text that does not
    depend on the line number, and a message is present exactly when a code
    is. *)
Theorem validate_row_message_prefix `{Host} (r : row) :
  exists code tail,
    (code = None <-> tail = None)
    /\ forall line_no,
         validate_row r line_no
         = Ret (code, option_map (append (line_prefix line_no)) tail).
Proof.
  unfold validate_row, line_prefix, msg_fields_count, msg_idx_not_int,
    msg_name_empty, msg_freq_negative, msg_freq_not_int.
  destruct (negb (len r =? 3)) eqn:L.
  - exists (Some "fields_count"),
      (Some ("ожидается 3 поля, получено " ++ dec (len r) ++ " — "
             ++ repr_list r)).
    split; [split; discriminate |].
    intros n. cbn [option_map]. rewrite <- !append_assoc. reflexivity.
  - apply negb_false_iff, Z.eqb_eq in L. unfold len in L.
    destruct r as [| x [| y [| z [| u r]]]]; simpl length in L; try lia.
    cbn [unpack3 rbind].
    destruct (py_int x).
    + destruct (String.eqb (py_strip y) EmptyString).
      * exists (Some "name_empty"), (Some "'name' пустая").
        split; [split; discriminate |].
        intros n. cbn [option_map]. rewrite <- !append_assoc. reflexivity.
      * destruct (py_int z) as [fr |].
        -- destruct (fr <? 0).
           ++ exists (Some "freq_negative"),
                (Some ("'frequency' < 0 — " ++ py_repr z)).
              split; [split; discriminate |].
              intros n. cbn [option_map]. rewrite <- !append_assoc.
              reflexivity.
           ++ exists None, None. split; [split; reflexivity |].
              intros n. reflexivity.
        -- exists (Some "freq_not_int"),
             (Some ("'frequency' не int — " ++ py_repr z)).
           split; [split; discriminate |].
           intros n. cbn [option_map]. rewrite <- !append_assoc.
           reflexivity.
    + exists (Some "idx_not_int"),
        (Some ("'Unnamed: 0' не int — " ++ py_repr x)).
      split; [split; discriminate |].
      intros n. cbn [option_map]. rewrite <- !append_assoc. reflexivity.
Qed.

(** ** The sample file *)

(** X13. The encoding check of lines 95-100 reads the subject file only.
    When the read of the first record of the sample file raises on line
    105, on a byte that is not UTF-8 in the part of the file that it reads,
    nothing catches the exception: the run ends after the line on the
    encoding, with no sink opened, and the process completes with status
    1. *)
Theorem sample_read_error_escapes `{Host} (a : args) (w : world) (t : str)
  (e : exn) :
  utf8_decode (file_bytes w (big_csv a)) = Text t ->
  truthy (sample_csv a) = true ->
  first_record (file_bytes w (text_of (sample_csv a))) = Raise e ->
  validate_csv a w boot = (Raise e, set_console [EncodingOk] boot)
  /\ fst (main a w) = 1.
Proof.
  intros E S D.
  assert (V : validate_csv a w boot
              = (Raise e, set_console [EncodingOk] boot)).
  { unfold validate_csv. cbv zeta. rewrite (check_passes _ _ E).
    unfold bind, lift, print, modify. simpl.
    unfold expected_header_of, read_header.
    rewrite S, D. reflexivity. }
  split; [exact V |]. unfold main. rewrite V. reflexivity.
Qed.

(** ** Compression of the sinks *)

Lemma length_append (s1 s2 : str) :
  String.length (s1 ++ s2) = (String.length s1 + String.length s2)%nat.
Proof. induction s1 as [| c s1 IH]; simpl; [| rewrite IH]; reflexivity. Qed.

Lemma substring_all (s : str) : substring 0 (String.length s) s = s.
Proof. induction s as [| c s IH]; simpl; [| rewrite IH]; reflexivity. Qed.

Lemma substring_skip (p s : str) (k : nat) :
  substring (String.length p) k (p ++ s) = substring 0 k s.
Proof. induction p as [| c p IH]; simpl; [reflexivity | exact IH]. Qed.

Lemma substring_split (s : str) (m : nat) :
  (m <= String.length s)%nat ->
  s = substring 0 m s ++ substring m (String.length s - m) s.
Proof.
  revert m. induction s as [| c s IH]; intros m L.
  - destruct m; reflexivity.
  - destruct m as [| m]; simpl.
    + rewrite substring_all. reflexivity.
    + simpl in L. rewrite <- (IH m) by lia. reflexivity.
Qed.

Lemma ends_with_iff (suffix s : str) :
  ends_with suffix s = true <-> exists stem, s = stem ++ suffix.
Proof.
  unfold ends_with. cbv zeta. rewrite andb_true_iff, Nat.leb_le, String.eqb_eq.
  split.
  - intros [L E]. exists (substring 0 (String.length s - String.length suffix) s).
    pose proof (substring_split s (String.length s - String.length suffix))
      as S.
    replace (String.length s - (String.length s - String.length suffix))%nat
      with (String.length suffix) in S by lia.
    rewrite E in S. apply S. lia.
  - intros [stem ->]. rewrite length_append. split; [lia |].
    replace (String.length stem + String.length suffix
             - String.length suffix)%nat
      with (String.length stem) by lia.
    rewrite substring_skip. apply substring_all.
Qed.

Lemma handle_write_gzip (h h' : handle) (cells : row) :
  handle_write h cells = Ret h' -> h_gzip h' = h_gzip h.
Proof.
  unfold handle_write, take, rbind. destruct (h_closes h); [| discriminate].
  destruct (S (h_pending h) <=? h_buffer h)%nat;
    [| destruct (h_room h) as [k |];
       [destruct (S (h_pending h) <=? k)%nat |]];
    intros E; try discriminate E; injection E as <-; reflexivity.
Qed.

(** X14. When the opening of the sinks returns, the error log is written
    through gzip exactly when its path is some text followed by [.gz], in
    that case of letters, and the clean copy is never written through gzip,
    whatever its path. *)
Theorem sink_compression (a : args) (w : world) (eh : row) (s : state) :
  fst (init_pass a w eh s) = Ret tt ->
  option_map h_gzip (clean_fh (snd (init_pass a w eh s)))
  = (if truthy (out_clean a) then Some false else None)
  /\ option_map h_gzip (err_fh (snd (init_pass a w eh s)))
     = (if truthy (errors_out a)
        then Some (ends_with ".gz" (text_of (errors_out a))) else None)
  /\ (ends_with ".gz" (text_of (errors_out a)) = true
      <-> exists stem, text_of (errors_out a) = stem ++ ".gz").
Proof.
  intros R. split; [| split]; [| | apply ends_with_iff]; revert R;
    unfold init_pass, open_clean, open_errors, open_errors_writer,
      write_clean, write_errors, when, bind, modify, ret;
    simpl; repeat (break_match; simpl); intros E; try discriminate E;
    repeat match goal with
           | F : handle_write _ _ = Ret _ |- _ =>
               apply handle_write_gzip in F; simpl in F
           end;
    congruence.
Qed.

(** ** String literals for ClickHouse *)

Lemma replace_char_app (old : ascii) (new s1 s2 : str) :
  replace_char old new (s1 ++ s2)
  = replace_char old new s1 ++ replace_char old new s2.
Proof.
  induction s1 as [| c s1 IH]; simpl; [reflexivity |].
  rewrite IH. apply append_assoc.
Qed.

Lemma read_body_escaped (s : str) :
  read_body (replace_char "'" "\'" (replace_char "\" "\\" s) ++ "'") = Some s.
Proof.
  induction s as [| c s IH].
  - reflexivity.
  - cbn [replace_char].
    destruct (Ascii.eqb_spec c "\") as [-> | B].
    + rewrite replace_char_app. simpl. simpl in IH. rewrite IH. reflexivity.
    + rewrite replace_char_app. cbn [replace_char].
      destruct (Ascii.eqb_spec c "'") as [-> | A].
      * simpl. simpl in IH. rewrite IH. reflexivity.
      * simpl.
        destruct (Ascii.eqb_spec c "'"); [contradiction |].
        destruct (Ascii.eqb_spec c "\"); [contradiction |].
        simpl in IH. rewrite IH. reflexivity.
Qed.

(** X15. [ch_str] is undone by reading the literal back: between its two
    apostrophes every backslash and every apostrophe of the text is escaped
    by a backslash, so the literal ends where the text ends, and two texts
    with the same literal are the same. *)
Theorem ch_str_reads_back (s s' : str) :
  read_literal (ch_str s) = Some s
  /\ (ch_str s = ch_str s' -> s = s').
Proof.
  assert (R : forall x, read_literal (ch_str x) = Some x).
  { intros x. unfold ch_str. simpl. apply read_body_escaped. }
  split; [apply R |].
  intros E. pose proof (R s) as Rs. rewrite E, R in Rs. congruence.
Qed.

(** * Sample runs for the further properties *)

Lemma four_rows_loop_returns :
  fst (@stream Reference.host Samples.terse 2 Samples.four_rows
         (at_entry (Some (Samples.fresh EXPECTED_HEADER))
            (Some (Samples.fresh ["line_no"])) []))
  = Ret tt.
Proof. vm_compute. reflexivity. Qed.

Lemma error_log_rows_witness :
  rows_of (err_fh (Samples.loop_state Samples.terse))
  = (h_rows (Samples.fresh ["line_no"])
     ++ @error_rows Reference.host 2 Samples.four_rows)%list
  /\ len (@error_rows Reference.host 2 Samples.four_rows)
     = @invalid_count Reference.host Samples.four_rows
  /\ Forall (fun cells => length cells = 7%nat)
       (@error_rows Reference.host 2 Samples.four_rows).
Proof.
  unfold Samples.loop_state.
  apply (@error_log_rows Reference.host Samples.terse Samples.four_rows 2
           (Some (Samples.fresh EXPECTED_HEADER)) (Samples.fresh ["line_no"])
           []).
  exact four_rows_loop_returns.
Defined.

Lemma every_record_in_one_sink_witness :
  (len (rows_of (clean_fh (Samples.loop_state Samples.terse)))
   - len (h_rows (Samples.fresh EXPECTED_HEADER)))
  + (len (rows_of (err_fh (Samples.loop_state Samples.terse)))
     - len (h_rows (Samples.fresh ["line_no"])))
  = len Samples.four_rows.
Proof.
  unfold Samples.loop_state.
  apply (@every_record_in_one_sink Reference.host Samples.terse
           Samples.four_rows 2 (Samples.fresh EXPECTED_HEADER)
           (Samples.fresh ["line_no"]) []).
  exact four_rows_loop_returns.
Defined.

Lemma counters_count_witness :
  dict_get_or (err_counts (Samples.loop_state Samples.terse)) "freq_negative" 0
  = len (@occurrences Reference.host "freq_negative" 2 Samples.four_rows).
Proof.
  unfold Samples.loop_state.
  apply (@counters_count Reference.host Samples.terse Samples.four_rows 2
           (Some (Samples.fresh EXPECTED_HEADER))
           (Some (Samples.fresh ["line_no"])) [] "freq_negative").
  exact four_rows_loop_returns.
Defined.

Lemma printed_lines_are_first_errors_witness :
  filter is_row_error (console (Samples.loop_state Samples.terse))
  = (filter is_row_error []
     ++ map RowError
          (firstn (Z.to_nat (max_print_errors Samples.terse))
             (@invalid_messages Reference.host 2 Samples.four_rows)))%list.
Proof.
  unfold Samples.loop_state.
  apply (@printed_lines_are_first_errors Reference.host Samples.terse
           Samples.four_rows 2 (Some (Samples.fresh EXPECTED_HEADER))
           (Some (Samples.fresh ["line_no"])) []).
  exact four_rows_loop_returns.
Defined.

Lemma progress_lines_witness :
  filter is_progress (console (Samples.loop_state Samples.terse))
  = [Progress 2; Progress 4].
Proof.
  unfold Samples.loop_state.
  rewrite (proj1 (@progress_lines Reference.host Samples.terse
                    Samples.four_rows 2
                    (Some (Samples.fresh EXPECTED_HEADER))
                    (Some (Samples.fresh ["line_no"])) []
                    four_rows_loop_returns)).
  reflexivity.
Defined.

(** An empty subject file. *)
Lemma empty_decodes :
  @utf8_decode Reference.host
    (file_bytes (Scenario.world_of [] Scenario.no_limit)
       (big_csv Scenario.defaults))
  = Text EmptyString.
Proof. vm_compute. reflexivity. Qed.

Lemma empty_expected_header :
  @expected_header_of Reference.host Scenario.defaults
    (Scenario.world_of [] Scenario.no_limit)
  = Ret EXPECTED_HEADER.
Proof. vm_compute. reflexivity. Qed.

Lemma empty_observed_header :
  @observed_header Reference.host Scenario.defaults
    (Scenario.world_of [] Scenario.no_limit)
  = Ret None.
Proof. vm_compute. reflexivity. Qed.

Lemma empty_subject_rejected_witness :
  Scenario.run Scenario.defaults [] Scenario.no_limit
  = (Ret tt,
     set_console
       [EncodingOk; ExpectedHeader EXPECTED_HEADER; HeaderMismatch;
        HeaderInFile None; HeaderExpected EXPECTED_HEADER] boot).
Proof.
  unfold Scenario.run.
  apply (@empty_subject_rejected Reference.host Scenario.defaults
           (Scenario.world_of [] Scenario.no_limit) EmptyString
           EXPECTED_HEADER None empty_decodes empty_expected_header
           empty_observed_header).
  left. reflexivity.
Defined.

(** A subject file whose three records are all invalid, with both sinks. *)
Lemma all_invalid_decodes :
  @utf8_decode Reference.host
    (file_bytes (Scenario.world_of Scenario.all_invalid Scenario.no_limit)
       (big_csv Scenario.with_sinks))
  = Text (string_of_list_byte Scenario.all_invalid).
Proof. vm_compute. reflexivity. Qed.

Lemma all_invalid_expected_header :
  @expected_header_of Reference.host Scenario.with_sinks
    (Scenario.world_of Scenario.all_invalid Scenario.no_limit)
  = Ret EXPECTED_HEADER.
Proof. vm_compute. reflexivity. Qed.

Lemma all_invalid_observed_header :
  @observed_header Reference.host Scenario.with_sinks
    (Scenario.world_of Scenario.all_invalid Scenario.no_limit)
  = Ret (Some EXPECTED_HEADER).
Proof. vm_compute. reflexivity. Qed.

Lemma all_invalid_data_rows :
  @data_rows Reference.host Scenario.with_sinks
    (Scenario.world_of Scenario.all_invalid Scenario.no_limit)
  = Ret [["x"; "y"; "z"]; [EmptyString; EmptyString; EmptyString];
         ["1"; "2"]].
Proof. vm_compute. reflexivity. Qed.

Lemma successful_run_report_witness :
  fst (Scenario.run Scenario.with_sinks Scenario.all_invalid
         Scenario.no_limit) = Ret tt
  /\ total (snd (Scenario.run Scenario.with_sinks Scenario.all_invalid
                   Scenario.no_limit)) = 3.
Proof.
  unfold Scenario.run.
  pose proof (@successful_run_report Reference.host Scenario.with_sinks
                (Scenario.world_of Scenario.all_invalid Scenario.no_limit)
                _ _ _ all_invalid_decodes all_invalid_expected_header
                all_invalid_observed_header all_invalid_data_rows
                (fun p => eq_refl)) as (R & T & _).
  rewrite R, T. split; reflexivity.
Defined.

Lemma with_sinks_open :
  fst (init_pass Scenario.with_sinks
         (Scenario.world_of Scenario.mixed Scenario.no_limit)
         EXPECTED_HEADER boot)
  = Ret tt.
Proof. vm_compute. reflexivity. Qed.

Lemma sink_compression_witness :
  option_map h_gzip
    (clean_fh (snd (init_pass Scenario.with_sinks
                      (Scenario.world_of Scenario.mixed Scenario.no_limit)
                      EXPECTED_HEADER boot)))
  = Some false
  /\ option_map h_gzip
       (err_fh (snd (init_pass Scenario.with_sinks
                       (Scenario.world_of Scenario.mixed Scenario.no_limit)
                       EXPECTED_HEADER boot)))
     = Some true.
Proof.
  pose proof (sink_compression Scenario.with_sinks
                (Scenario.world_of Scenario.mixed Scenario.no_limit)
                EXPECTED_HEADER boot with_sinks_open) as (C & E & _).
  rewrite C, E. split; reflexivity.
Defined.

Lemma bad_sample_decodes :
  @utf8_decode Reference.host
    (file_bytes Samples.bad_sample (big_csv Samples.sampled))
  = Text (string_of_list_byte Scenario.mixed).
Proof. vm_compute. reflexivity. Qed.

Lemma bad_sample_fails :
  @first_record Reference.host
    (file_bytes Samples.bad_sample (text_of (sample_csv Samples.sampled)))
  = Raise UnicodeDecodeError.
Proof. vm_compute. reflexivity. Qed.

Lemma sample_read_error_escapes_witness :
  fst (@main Reference.host Samples.sampled Samples.bad_sample) = 1.
Proof.
  apply (proj2 (@sample_read_error_escapes Reference.host Samples.sampled
                  Samples.bad_sample _ _ bad_sample_decodes eq_refl
                  bad_sample_fails)).
Defined.


